(** * fc-practice: the replay catch-up protocol of [ReplayBroker]

    A shallow embedding of [src/broker.py] and
    [src/replay_broker/replaybroker.py].  Methods of the broker become
    functions in a state-and-exception monad over a record holding the
    attributes of the object; what a method does to the outside world
    (logging, sleeping, socket traffic, store queries) is appended to a
    list of effects.  The thread structure of the request loop and its
    workers is a labelled step relation over program points. *)

From Stdlib Require Import ZArith List String Bool Lia Relations.
Import ListNotations.
Local Open Scope Z_scope.
Local Open Scope string_scope.

(** ** Python values

    What [recv_json] can deliver and what [send_json] accepts.  JSON
    numbers are kept to integers; a dict is an association list in
    insertion order, looked up by first match. *)

#[warnings="-register-all"]
Inductive value : Type :=
| VNone
| VBool (b : bool)
| VInt (n : Z)
| VStr (s : string)
| VList (items : list value)
| VDict (entries : list (string * value)).

Inductive exn : Type :=
| TypeError
| AttributeError
| KeyError
| UnboundLocalError
| Again            (* zmq.error.Again *)
| ZMQError         (* any other zmq.error.ZMQError *)
| CodecError       (* raised inside the serialization module *)
| ValueError.

Inductive result (A : Type) : Type :=
| Ok (a : A)
| Raise (e : exn).
Arguments Ok {A} a.
Arguments Raise {A} e.

Fixpoint lookup {A : Type} (k : string) (d : list (string * A)) : option A :=
  match d with
  | [] => None
  | (k', v) :: d' => if String.eqb k k' then Some v else lookup k d'
  end.

(** [bool(v)] *)
Definition truthy (v : value) : bool :=
  match v with
  | VNone => false
  | VBool b => b
  | VInt n => negb (Z.eqb n 0)
  | VStr s => negb (String.eqb s "")
  | VList l => match l with [] => false | _ => true end
  | VDict d => match d with [] => false | _ => true end
  end.

(** [v.get(k)]: only a dict has the method. *)
Definition py_get (v : value) (k : string) : result value :=
  match v with
  | VDict d => Ok (match lookup k d with Some x => x | None => VNone end)
  | _ => Raise AttributeError
  end.

(** [v[k]] with a string key. *)
Definition getitem (v : value) (k : string) : result value :=
  match v with
  | VDict d => match lookup k d with Some x => Ok x | None => Raise KeyError end
  | _ => Raise TypeError
  end.

(** [v == "literal"] *)
Definition eq_str (v : value) (s : string) : bool :=
  match v with
  | VStr s' => String.eqb s' s
  | _ => false
  end.

Fixpoint chars (s : string) : list value :=
  match s with
  | EmptyString => []
  | String c s' => VStr (String c EmptyString) :: chars s'
  end.

(** The items a [for] loop walks through. *)
Definition iter (v : value) : result (list value) :=
  match v with
  | VList l => Ok l
  | VDict d => Ok (map (fun kv => VStr (fst kv)) d)
  | VStr s => Ok (chars s)
  | _ => Raise TypeError
  end.

(** ** External collaborators *)

(** The event store behind [self.repository], and the inherited
    [get_all_events]; neither is defined in the sources, so they are the
    operations of an interface.  [insert_energy_value] is the call that
    [process_replay_msg] has commented out. *)
Class Repository (Store Event : Type) : Type := {
  find_latest_energy_usage : Store -> option Event;
  find_energy_after_arrival_time : Store -> value -> list Event;
  get_all_events : Store -> list Event;
  insert_energy_value : value -> Store -> Store
}.

(** The [serialization] module. *)
Class Codec (Event : Type) : Type := {
  serialize_msg : Event -> value;
  deserialize_msg : value -> result value
}.

(** ** Effects and sockets *)

Inductive effect : Type :=
| LogInfo (text : string) (arg : value)
| LogWarning (text : string)
| Print (text : string)
| Sleep (seconds : Z)
| Deserialize (msg : value)
| FindLatest
| FindAfter (arrival_time : value)
| GetAllEvents
| SockSend (payload : value)
| SockRecv
| SockClose
| Reply (payload : value)
| LockAcquire
| LockRelease
| ThreadStart (request : value) (timeout : Z).

Record zsocket : Type := {
  connect_timeout : option Z;
  rcvtimeo : option Z;
  peer : option string;
  closed : bool
}.

Definition fresh_socket : zsocket :=
  {| connect_timeout := None; rcvtimeo := None; peer := None; closed := false |}.

Definition close (s : zsocket) : zsocket :=
  {| connect_timeout := connect_timeout s; rcvtimeo := rcvtimeo s;
     peer := peer s; closed := true |}.

(** What the outside world does to one dispatch worker: for each call
    that leaves the process, the exception it raises, if any, and the
    reply that [recv_json] returns. *)
Record upstream : Type := {
  socket_raises : option exn;
  connect_timeout_raises : option exn;
  rcvtimeo_raises : option exn;
  connect_raises : option exn;
  send_raises : option exn;
  recv_result : result value
}.

(** ** State and exceptions

    A method runs on the attributes of its object and either returns or
    raises; what it assigned before raising stays assigned. *)

Definition St (S A : Type) : Type := S -> result A * S.

Definition ret {S A : Type} (a : A) : St S A := fun b => (Ok a, b).

Definition raise {S A : Type} (e : exn) : St S A := fun b => (Raise e, b).

Definition bind {S A B : Type} (m : St S A) (k : A -> St S B) : St S B :=
  fun b =>
    match m b with
    | (Ok a, b') => k a b'
    | (Raise e, b') => (Raise e, b')
    end.

Definition lift {S A : Type} (r : result A) : St S A := fun b => (r, b).

Definition get {S : Type} : St S S := fun b => (Ok b, b).

Definition may_raise {S : Type} (o : option exn) : St S unit :=
  match o with
  | Some e => raise e
  | None => ret tt
  end.

(** [try: body except <caught>: handler] *)
Definition try_except {S A : Type} (body : St S A) (caught : exn -> bool)
    (handler : St S A) : St S A :=
  fun b =>
    match body b with
    | (Raise e, b') => if caught e then handler b' else (Raise e, b')
    | r => r
    end.

(** [try: body finally: fin]; an exception of [fin] replaces the outcome
    of [body]. *)
Definition try_finally {S A : Type} (body : St S A) (fin : St S unit)
    : St S A :=
  fun b =>
    match body b with
    | (r, b') =>
        match fin b' with
        | (Ok _, b'') => (r, b'')
        | (Raise e, b'') => (Raise e, b'')
        end
    end.

Fixpoint for_each {S A : Type} (l : list A) (body : A -> St S unit)
    : St S unit :=
  match l with
  | [] => ret tt
  | x :: l' => bind (body x) (fun _ => for_each l' body)
  end.

Declare Scope py_scope.
Delimit Scope py_scope with py.
Notation "x <- m ;; k" := (bind m (fun x => k))
  (at level 61, m at next level, right associativity) : py_scope.
Notation "m ;; k" := (bind m (fun _ => k))
  (at level 61, right associativity) : py_scope.
Local Open Scope py_scope.

Section Model.

Context {Store Event : Type} {repo : Repository Store Event} {codec : Codec Event}.

(** The attributes [ReplayBroker.__init__] assigns, with the effects so
    far (oldest first).  [remote_replay_socket = None] is Python's
    [None]; [remote_replay_address = None] is an attribute not yet set. *)
Record ReplayBroker : Type := {
  repository : Store;
  last_event_date : option Event;
  remote_replay_socket : option zsocket;
  remote_replay_address : option string;
  request_in_progress : bool;
  first_event_date : option Event;
  effects : list effect
}.

Definition M (A : Type) : Type := St ReplayBroker A.

Definition emit (e : effect) : M unit :=
  fun b =>
    (Ok tt,
     {| repository := repository b; last_event_date := last_event_date b;
        remote_replay_socket := remote_replay_socket b;
        remote_replay_address := remote_replay_address b;
        request_in_progress := request_in_progress b;
        first_event_date := first_event_date b;
        effects := effects b ++ [e] |}).

Definition set_last_event_date (w : option Event) : M unit :=
  fun b =>
    (Ok tt,
     {| repository := repository b; last_event_date := w;
        remote_replay_socket := remote_replay_socket b;
        remote_replay_address := remote_replay_address b;
        request_in_progress := request_in_progress b;
        first_event_date := first_event_date b;
        effects := effects b |}).

Definition set_remote_replay_socket (s : option zsocket) : M unit :=
  fun b =>
    (Ok tt,
     {| repository := repository b; last_event_date := last_event_date b;
        remote_replay_socket := s;
        remote_replay_address := remote_replay_address b;
        request_in_progress := request_in_progress b;
        first_event_date := first_event_date b;
        effects := effects b |}).

Definition set_request_in_progress (f : bool) : M unit :=
  fun b =>
    (Ok tt,
     {| repository := repository b; last_event_date := last_event_date b;
        remote_replay_socket := remote_replay_socket b;
        remote_replay_address := remote_replay_address b;
        request_in_progress := f;
        first_event_date := first_event_date b;
        effects := effects b |}).

Definition set_repository (s : Store) (b : ReplayBroker) : ReplayBroker :=
  {| repository := s; last_event_date := last_event_date b;
     remote_replay_socket := remote_replay_socket b;
     remote_replay_address := remote_replay_address b;
     request_in_progress := request_in_progress b;
     first_event_date := first_event_date b;
     effects := effects b |}.

(** Lines 30-35 of [__init__]: the replay state of a new broker. *)
Definition init_replay_state (store : Store) : ReplayBroker :=
  {| repository := store;
     last_event_date := find_latest_energy_usage store;
     remote_replay_socket := None;
     remote_replay_address := None;
     request_in_progress := false;
     first_event_date := None;
     effects := [] |}.

Definition connect_to_remote_replay_server (remote_replay_address : string)
    : M unit :=
  fun b =>
    (Ok tt,
     {| repository := repository b; last_event_date := last_event_date b;
        remote_replay_socket := remote_replay_socket b;
        remote_replay_address := Some remote_replay_address;
        request_in_progress := request_in_progress b;
        first_event_date := first_event_date b;
        effects := effects b |}).

(** *** The apply path *)

Definition process_replay_msg (msg : value) : M unit :=
  emit (Deserialize msg) ;;
  msg_deserialized <- lift (deserialize_msg msg) ;;
  name <- lift (getitem msg_deserialized "name") ;;
  if eq_str name "energy_usage" then
    emit (LogInfo "Got energy replay: " msg_deserialized)
    (* self.repository.insert_energy_value(msg_deserialized) is commented out *)
  else
    name' <- lift (getitem msg_deserialized "name") ;;
    if eq_str name' "weather" then emit (Print "got weather message")
    else ret tt.

Definition refresh_last_event_date : M unit :=
  emit FindLatest ;;
  b <- get ;;
  set_last_event_date (find_latest_energy_usage (repository b)).

Definition handle_replay_events (events : value) : M unit :=
  match events with
  | VNone => ret tt
  | _ =>
      items <- lift (iter events) ;;
      for_each items (fun event =>
        process_replay_msg event ;;
        refresh_last_event_date)
  end.

(** One turn of the [for] loop of [handle_replay_events]. *)
Definition apply_one (event : value) : M unit :=
  process_replay_msg event ;; refresh_last_event_date.

(** *** The dispatch worker *)

Definition is_Again (e : exn) : bool :=
  match e with
  | Again => true
  | _ => false
  end.

Definition update_socket (f : zsocket -> zsocket) : M unit :=
  b <- get ;;
  match remote_replay_socket b with
  | Some s => set_remote_replay_socket (Some (f s))
  | None => raise AttributeError
  end.

(** Lines 90-99, the body of [try]. *)
Definition try_block (u : upstream) (request : value) (timeout : Z) : M unit :=
  may_raise (socket_raises u) ;;
  set_remote_replay_socket (Some fresh_socket) ;;
  may_raise (connect_timeout_raises u) ;;
  update_socket (fun s =>
    {| connect_timeout := Some (timeout * 1000); rcvtimeo := rcvtimeo s;
       peer := peer s; closed := closed s |}) ;;
  may_raise (rcvtimeo_raises u) ;;
  update_socket (fun s =>
    {| connect_timeout := connect_timeout s;
       rcvtimeo := Some (timeout * 1000);
       peer := peer s; closed := closed s |}) ;;
  b <- get ;;
  address <- match remote_replay_address b with
             | Some a => ret a
             | None => raise AttributeError
             end ;;
  may_raise (connect_raises u) ;;
  update_socket (fun s =>
    {| connect_timeout := connect_timeout s; rcvtimeo := rcvtimeo s;
       peer := Some address; closed := closed s |}) ;;
  request_type <- lift (py_get request "type") ;;
  emit (LogInfo "Sending replay request " request_type) ;;
  may_raise (send_raises u) ;;
  emit (SockSend request) ;;
  response <- lift (recv_result u) ;;
  emit SockRecv ;;
  handle_replay_events response.

(** Lines 101-102, the handler of [except zmq.error.Again]. *)
Definition except_block : M unit :=
  emit (LogWarning
          "Resource temporarily unavailable. Retrying in 5 sec later...") ;;
  emit (Sleep 5).

(** Lines 105-106, the body of [finally]. *)
Definition finally_block : M unit :=
  update_socket close ;;
  emit SockClose ;;
  set_request_in_progress false.

Definition _send_replay_request (u : upstream) (request : value) (timeout : Z)
    : M unit :=
  try_finally
    (try_except (try_block u request timeout) is_Again except_block)
    finally_block.

(** *** The request loop *)

(** Lines 78-81: the request built from the current watermark. *)
Definition replay_request (b : ReplayBroker) : value :=
  match last_event_date b with
  | None => VDict [("type", VStr "replay_all")]
  | Some w =>
      VDict [("type", VStr "replay_by_timestamp");
             ("last_event_date", serialize_msg w)]
  end.

Definition send_replay_request (timeout : Z) : M unit :=
  b <- get ;;
  let request := replay_request b in
  emit LockAcquire ;;
  set_request_in_progress true ;;
  emit (ThreadStart request timeout) ;;
  emit LockRelease.

(** [time.sleep(seconds)]: a negative length is a [ValueError]. *)
Definition sleep (seconds : Z) : M unit :=
  if (seconds <? 0)%Z then raise ValueError else emit (Sleep seconds).

(** One turn of the [while True] of [start_replay_request_loop]. *)
Definition replay_request_tick (interval timeout : Z) : M unit :=
  b <- get ;;
  (if negb (request_in_progress b) then send_replay_request timeout
   else ret tt) ;;
  sleep interval.

(** *** The replay server *)

(** One turn of the [while True] of [start_local_replay_server] on the
    request that [recv_json] returned.  [events] is the local variable of
    that name as the previous turn left it ([None]: not yet bound). *)
Definition replay_server_turn (events : option (list Event)) (request : value)
    : M (option (list Event)) :=
  emit (LogInfo "Got replay request " request) ;;
  events' <-
    (if truthy request then
       request_type <- lift (py_get request "type") ;;
       events1 <-
         (if eq_str request_type "replay_by_timestamp" then
            raw <- lift (py_get request "last_event_date") ;;
            emit (Deserialize raw) ;;
            last_event_date <- lift (deserialize_msg raw) ;;
            arrival_time <- lift (getitem last_event_date "arrival_time") ;;
            emit (FindAfter arrival_time) ;;
            b <- get ;;
            ret (Some (find_energy_after_arrival_time (repository b)
                         arrival_time))
          else if eq_str request_type "replay_all" then
            emit GetAllEvents ;;
            b <- get ;;
            ret (Some (get_all_events (repository b)))
          else ret events) ;;
       match events1 with
       | None => raise UnboundLocalError
       | Some evs =>
           emit (Reply (VList (map serialize_msg evs))) ;;
           ret events1
       end
     else ret events) ;;
  emit (Sleep 1) ;;
  ret events'.

(** *** The life of a replay client

    The store changes under the client only through [store_evolves]
    (other writers); the client itself moves by the methods above. *)

Variable store_evolves : Store -> Store -> Prop.

Inductive client_step : ReplayBroker -> ReplayBroker -> Prop :=
| store_step b s :
    store_evolves (repository b) s ->
    client_step b (set_repository s b)
| connect_step b address :
    client_step b (snd (connect_to_remote_replay_server address b))
| tick_step b interval timeout :
    client_step b (snd (replay_request_tick interval timeout b))
| worker_step b u request timeout :
    client_step b (snd (_send_replay_request u request timeout b))
| apply_step b event :
    client_step b (snd (apply_one event b)).

Inductive client_reachable : ReplayBroker -> Prop :=
| reach_init store : client_reachable (init_replay_state store)
| reach_step b b' :
    client_reachable b -> client_step b b' -> client_reachable b'.

(** A batch applied message by message while other writers get at the
    store between two messages; the loop ends with the batch or with the
    first message that raises. *)
Inductive batch_run : list value -> ReplayBroker -> ReplayBroker -> Prop :=
| batch_done b : batch_run [] b b
| batch_store b s msgs b' :
    store_evolves (repository b) s ->
    batch_run msgs (set_repository s b) b' ->
    batch_run msgs b b'
| batch_next b msg msgs b' :
    fst (apply_one msg b) = Ok tt ->
    batch_run msgs (snd (apply_one msg b)) b' ->
    batch_run (msg :: msgs) b b'
| batch_raises b msg msgs e :
    fst (apply_one msg b) = Raise e ->
    batch_run (msg :: msgs) b (snd (apply_one msg b)).

(** [None] is the watermark of an empty history, below every other. *)
Definition watermark_le (le : Event -> Event -> Prop)
    (w1 w2 : option Event) : Prop :=
  match w1, w2 with
  | None, _ => True
  | Some _, None => False
  | Some e1, Some e2 => le e1 e2
  end.

(** The watermark a client holds was read from its store, and the store
    has only moved forward since. *)
Definition behind_store (le : Event -> Event -> Prop) (b : ReplayBroker)
    : Prop :=
  watermark_le le (last_event_date b)
    (find_latest_energy_usage (repository b)).

(** The upstream exchange of a worker ends in [zmq.error.Again]: socket
    set-up went through and the first call to fail among connect, send
    and receive raises it. *)
Definition times_out (u : upstream) : Prop :=
  socket_raises u = None /\
  connect_timeout_raises u = None /\
  rcvtimeo_raises u = None /\
  (connect_raises u = Some Again \/
   (connect_raises u = None /\ send_raises u = Some Again) \/
   (connect_raises u = None /\ send_raises u = None /\
    recv_result u = Raise Again)).

(** The exchange ends without a response reaching the apply path. *)
Definition no_response (u : upstream) : Prop :=
  forall response, recv_result u = Ok response ->
    socket_raises u <> None \/ connect_timeout_raises u <> None \/
    rcvtimeo_raises u <> None \/ connect_raises u <> None \/
    send_raises u <> None.

(** What [process_replay_msg] shows of a deserialized message. *)
Definition kind_effects (msg_deserialized : value) : list effect :=
  match getitem msg_deserialized "name" with
  | Ok name =>
      if eq_str name "energy_usage" then
        [LogInfo "Got energy replay: " msg_deserialized]
      else if eq_str name "weather" then [Print "got weather message"]
      else []
  | Raise _ => []
  end.

(** The effects of applying one message of a batch. *)
Definition apply_effects (msg : value) : list effect :=
  match deserialize_msg msg with
  | Ok d => Deserialize msg :: kind_effects d ++ [FindLatest]
  | Raise _ => [Deserialize msg]
  end.

(** *** The apply path as the specification words it

    "persist energy-usage events into the store": the same loop with the
    insert carried out. *)
Definition process_replay_msg_spec (msg : value) : M unit :=
  emit (Deserialize msg) ;;
  msg_deserialized <- lift (deserialize_msg msg) ;;
  name <- lift (getitem msg_deserialized "name") ;;
  if eq_str name "energy_usage" then
    emit (LogInfo "Got energy replay: " msg_deserialized) ;;
    (fun b =>
       (Ok tt,
        set_repository (insert_energy_value msg_deserialized (repository b)) b))
  else
    name' <- lift (getitem msg_deserialized "name") ;;
    if eq_str name' "weather" then emit (Print "got weather message")
    else ret tt.

Definition handle_replay_events_spec (events : value) : M unit :=
  match events with
  | VNone => ret tt
  | _ =>
      items <- lift (iter events) ;;
      for_each items (fun event =>
        process_replay_msg_spec event ;;
        refresh_last_event_date)
  end.

(** The client state that the apply path has no business with: every
    attribute but the watermark (the effects are not state of the
    client). *)
Definition same_but_watermark (b b' : ReplayBroker) : Prop :=
  repository b' = repository b /\
  remote_replay_socket b' = remote_replay_socket b /\
  remote_replay_address b' = remote_replay_address b /\
  request_in_progress b' = request_in_progress b /\
  first_event_date b' = first_event_date b.

(** The moves of a client that bring no response to the apply path. *)
Inductive quiet_step : ReplayBroker -> ReplayBroker -> Prop :=
| quiet_store b s :
    store_evolves (repository b) s ->
    quiet_step b (set_repository s b)
| quiet_connect b address :
    quiet_step b (snd (connect_to_remote_replay_server address b))
| quiet_tick b interval timeout :
    quiet_step b (snd (replay_request_tick interval timeout b))
| quiet_worker b u request timeout :
    no_response u ->
    quiet_step b (snd (_send_replay_request u request timeout b)).

End Model.

Arguments ReplayBroker Store Event : clear implicits.
Arguments M Store Event A : clear implicits.

(** ** Outcomes of the upstream *)

(** Socket creation, both [setsockopt] calls and [connect] go through. *)
Definition connects (u : upstream) : Prop :=
  socket_raises u = None /\
  connect_timeout_raises u = None /\
  rcvtimeo_raises u = None /\
  connect_raises u = None.

(** The whole exchange goes through and [recv_json] returns [response]. *)
Definition answers (u : upstream) (response : value) : Prop :=
  connects u /\ send_raises u = None /\ recv_result u = Ok response.

(** ** The request loop, turn after turn *)

Section Loops.

Context {Store Event : Type} {repo : Repository Store Event} {codec : Codec Event}.


End Loops.

(** ** Threads: the request loop and its workers

    Program points of [start_replay_request_loop] (with
    [send_replay_request] inlined) and of [_send_replay_request], and the
    interleavings of one loop thread with the workers it starts. *)

Module Threads.

Inductive loop_pc : Type :=
| LCheck      (* line 73: if not self.request_in_progress *)
| LBuild      (* lines 78-81: build the request *)
| LAcquire    (* line 83: with self.send_replay_lock *)
| LSetFlag    (* line 84: self.request_in_progress = True *)
| LSpawn      (* line 85: threading.Thread(...).start() *)
| LRelease    (* leaving the with block *)
| LSleep.     (* line 75: time.sleep(interval) *)

Inductive worker_pc : Type :=
| WTry        (* lines 90-99 *)
| WExcept     (* lines 101-102 *)
| WClose      (* line 105: self.remote_replay_socket.close() *)
| WClear      (* line 106: self.request_in_progress = False *)
| WDone       (* the function has returned *)
| WCrashed.   (* line 105 raised *)

Inductive thread : Type :=
| Loop
| Worker (i : nat).

Inductive action : Type :=
| ReadFlag (b : bool)
| WriteFlag (b : bool)
| Acquire
| Release
| Spawn
| Tau.

Record sys : Type := {
  flag : bool;                (* request_in_progress *)
  lock : option thread;       (* holder of send_replay_lock *)
  loop : loop_pc;
  workers : list worker_pc
}.

Definition init : sys :=
  {| flag := false; lock := None; loop := LCheck; workers := [] |}.

Definition loop_next (s : sys) : list (action * sys) :=
  match loop s with
  | LCheck =>
      [(ReadFlag (flag s),
        {| flag := flag s; lock := lock s;
           loop := if flag s then LSleep else LBuild;
           workers := workers s |})]
  | LBuild =>
      [(Tau, {| flag := flag s; lock := lock s; loop := LAcquire;
                workers := workers s |})]
  | LAcquire =>
      match lock s with
      | None =>
          [(Acquire, {| flag := flag s; lock := Some Loop; loop := LSetFlag;
                        workers := workers s |})]
      | Some _ => []
      end
  | LSetFlag =>
      [(WriteFlag true, {| flag := true; lock := lock s; loop := LSpawn;
                           workers := workers s |})]
  | LSpawn =>
      [(Spawn, {| flag := flag s; lock := lock s; loop := LRelease;
                  workers := workers s ++ [WTry] |})]
  | LRelease =>
      [(Release, {| flag := flag s; lock := None; loop := LSleep;
                    workers := workers s |})]
  | LSleep =>
      [(Tau, {| flag := flag s; lock := lock s; loop := LCheck;
                workers := workers s |})]
  end.

(** The try body ends (returning, or raising what the handler does not
    catch) or raises [Again]; [close()] returns or raises. *)
Definition worker_next (w : worker_pc) : list (action * worker_pc) :=
  match w with
  | WTry => [(Tau, WClose); (Tau, WExcept)]
  | WExcept => [(Tau, WClose)]
  | WClose => [(Tau, WClear); (Tau, WCrashed)]
  | WClear => [(WriteFlag false, WDone)]
  | WDone => []
  | WCrashed => []
  end.

Fixpoint set_nth {A : Type} (i : nat) (x : A) (l : list A) : list A :=
  match l, i with
  | [], _ => []
  | _ :: l', O => x :: l'
  | y :: l', S i' => y :: set_nth i' x l'
  end.

Definition written (a : action) (old : bool) : bool :=
  match a with
  | WriteFlag b => b
  | _ => old
  end.

Inductive step : sys -> thread -> action -> sys -> Prop :=
| step_loop s a s' :
    In (a, s') (loop_next s) ->
    step s Loop a s'
| step_worker s i w a w' :
    nth_error (workers s) i = Some w ->
    In (a, w') (worker_next w) ->
    step s (Worker i) a
      {| flag := written a (flag s); lock := lock s; loop := loop s;
         workers := set_nth i w' (workers s) |}.

Inductive reachable : sys -> Prop :=
| reachable_init : reachable init
| reachable_step s t a s' : reachable s -> step s t a s' -> reachable s'.

(** A worker is active while it has a statement of
    [_send_replay_request] left to run. *)
Definition active (w : worker_pc) : bool :=
  match w with
  | WDone | WCrashed => false
  | _ => true
  end.

Definition active_workers (s : sys) : nat :=
  List.length (filter active (workers s)).

Definition writes_flag (a : action) : Prop :=
  exists b, a = WriteFlag b.

(** What holds of every state the threads can get into: at most one
    worker is active, the flag is up while one is, none is while the
    loop is on its way from the check to the spawn, and the lock is held
    by the loop exactly inside the with block. *)
Definition inv (s : sys) : Prop :=
  (active_workers s <= 1)%nat /\
  ((1 <= active_workers s)%nat -> flag s = true) /\
  match loop s with
  | LBuild | LAcquire | LSetFlag => active_workers s = 0%nat
  | LSpawn => active_workers s = 0%nat /\ flag s = true
  | _ => True
  end /\
  lock s = match loop s with
           | LSetFlag | LSpawn | LRelease => Some Loop
           | _ => None
           end.

End Threads.

(** ** Construction: [Broker.__init__] and [ReplayBroker.__init__]

    An object under construction is its attribute dictionary; a call
    first binds its arguments to the parameters of the function. *)

Module Construction.

Inductive attr : Type :=
| AContext
| ASocket (kind : string) (bound : option value)
| ALatestEnergyUsage   (* what repository.find_latest_energy_usage() gave *)
| ARepository (db_url : value)
| ANone
| ABool (b : bool)
| ALock
| AThread (target : string).

Definition object : Type := list (string * attr).

Definition setattr (name : string) (a : attr) : St object unit :=
  fun o => (Ok tt, (name, a) :: o).


(** Binding of a call to parameters that have no defaults ([self] left
    out on both sides): too many positional arguments, a keyword that
    names no parameter or one already given by position, and a parameter
    left without a value are each a [TypeError]. *)
Definition bind_args (params : list string) (pos : list value)
    (kw : list (string * value)) : result (list (string * value)) :=
  if Nat.ltb (List.length params) (List.length pos) then Raise TypeError
  else
    let named := skipn (List.length pos) params in
    if forallb (fun kv => existsb (String.eqb (fst kv)) named) kw
       && forallb (fun p => existsb (fun kv => String.eqb p (fst kv)) kw) named
    then
      Ok (combine params pos ++
          map (fun p => (p, match lookup p kw with
                            | Some v => v
                            | None => VNone
                            end)) named)%list
    else Raise TypeError.

(** broker.py, [def __init__(self) -> None]. *)
Definition Broker___init__ (bind_raises : value -> option exn)
    (pos : list value) (kw : list (string * value)) : St object unit :=
  _ <- lift (bind_args [] pos kw) ;;
  setattr "context" AContext ;;
  setattr "edge_sub_socket" (ASocket "REP" None) ;;
  may_raise (bind_raises (VStr "tcp://127.0.0.1:5560")) ;;
  setattr "edge_sub_socket"
    (ASocket "REP" (Some (VStr "tcp://127.0.0.1:5560"))) ;;
  setattr "server_pub_socket" (ASocket "XPUB" None) ;;
  may_raise (bind_raises (VStr "tcp://127.0.0.1:5559")) ;;
  setattr "server_pub_socket"
    (ASocket "XPUB" (Some (VStr "tcp://127.0.0.1:5559"))).







(** [Broker()] *)
Definition new_Broker (bind_raises : value -> option exn)
    : result unit * object :=
  Broker___init__ bind_raises [] [] [].

End Construction.

(** ** A store of arrival times

    A concrete repository and codec on which the statements below are
    exercised: the store is the list of arrival times of its events,
    an event goes over the wire as a dict. *)

Module Example.

Fixpoint latest (s : list Z) : option Z :=
  match s with
  | [] => None
  | t :: s' =>
      match latest s' with
      | None => Some t
      | Some m => Some (Z.max t m)
      end
  end.

Definition wire (t : Z) : value :=
  VDict [("name", VStr "energy_usage"); ("arrival_time", VInt t)].

#[global] Instance list_repository : Repository (list Z) Z := {|
  find_latest_energy_usage := latest;
  find_energy_after_arrival_time s v :=
    match v with
    | VInt t => filter (fun x => Z.ltb t x) s
    | _ => []
    end;
  get_all_events s := s;
  insert_energy_value v s :=
    match getitem v "arrival_time" with
    | Ok (VInt t) => t :: s
    | _ => s
    end
|}.

#[global] Instance dict_codec : Codec Z := {|
  serialize_msg := wire;
  deserialize_msg v :=
    match v with
    | VDict _ => Ok v
    | _ => Raise CodecError
    end
|}.

(** Another writer inserts an event. *)
Definition inserted (s s' : list Z) : Prop := exists t, s' = t :: s.

Definition upstream_timeout : upstream :=
  {| socket_raises := None; connect_timeout_raises := None;
     rcvtimeo_raises := None; connect_raises := None; send_raises := None;
     recv_result := Raise Again |}.

Definition upstream_no_socket : upstream :=
  {| socket_raises := Some ZMQError; connect_timeout_raises := None;
     rcvtimeo_raises := None; connect_raises := None; send_raises := None;
     recv_result := Raise Again |}.

(** A client of a store holding arrival times 10, 20 and 30, told where
    its upstream is. *)
Definition client : ReplayBroker (list Z) Z :=
  snd (connect_to_remote_replay_server "tcp://upstream:5561"
         (init_replay_state [10; 20; 30])).

End Example.

(** * Properties *)

Section ApplyPath.

Context {Store Event : Type} {repo : Repository Store Event} {codec : Codec Event}.

Ltac monad_unfold :=
  unfold process_replay_msg, refresh_last_event_date, update_socket,
    set_last_event_date, set_remote_replay_socket, set_request_in_progress,
    emit, may_raise, lift, get, bind, ret, raise in *.

Lemma same_but_watermark_refl (b : ReplayBroker Store Event) : same_but_watermark b b.
Proof. repeat split. Qed.

Lemma same_but_watermark_trans (b1 b2 b3 : ReplayBroker Store Event) :
  same_but_watermark b1 b2 -> same_but_watermark b2 b3 ->
  same_but_watermark b1 b3.
Proof.
  unfold same_but_watermark.
  intros (R1 & S1 & A1 & P1 & F1) (R2 & S2 & A2 & P2 & F2).
  repeat split; congruence.
Qed.

Lemma apply_one_frame (event : value) (b : ReplayBroker Store Event) :
  same_but_watermark b (snd (apply_one event b)) /\
  (last_event_date (snd (apply_one event b)) = last_event_date b \/
   last_event_date (snd (apply_one event b))
   = find_latest_energy_usage (repository b)).
Proof.
  unfold apply_one, same_but_watermark. monad_unfold. simpl.
  destruct (deserialize_msg event) as [d | e]; simpl; [| tauto].
  destruct (getitem d "name") as [n | e]; simpl; [| tauto].
  destruct (eq_str n "energy_usage"); simpl; [tauto |].
  destruct (eq_str n "weather"); simpl; tauto.
Qed.

Lemma for_each_frame (items : list value) (b : ReplayBroker Store Event) :
  same_but_watermark b (snd (for_each items apply_one b)) /\
  (last_event_date (snd (for_each items apply_one b)) = last_event_date b \/
   last_event_date (snd (for_each items apply_one b))
   = find_latest_energy_usage (repository b)).
Proof.
  revert b. induction items as [| x items IH]; intros b; simpl.
  - split; [apply same_but_watermark_refl | now left].
  - unfold bind. destruct (apply_one_frame x b) as [F W].
    destruct (apply_one x b) as [[[] | e] b1]; simpl in *.
    + destruct (IH b1) as [F1 W1]. split.
      * eapply same_but_watermark_trans; eassumption.
      * destruct F as (R & _). rewrite R in W1.
        destruct W1 as [W1 | W1]; rewrite W1; tauto.
    + tauto.
Qed.

Lemma handle_replay_events_loop (events : value) (b : ReplayBroker Store Event) :
  handle_replay_events events b
  = match events with
    | VNone => (Ok tt, b)
    | _ => match iter events with
           | Ok items => for_each items apply_one b
           | Raise e => (Raise e, b)
           end
    end.
Proof.
  unfold handle_replay_events, bind, lift, ret, apply_one.
  destruct events; simpl; try reflexivity.
Qed.

Lemma handle_replay_events_frame (events : value) (b : ReplayBroker Store Event) :
  same_but_watermark b (snd (handle_replay_events events b)) /\
  (last_event_date (snd (handle_replay_events events b)) = last_event_date b \/
   last_event_date (snd (handle_replay_events events b))
   = find_latest_energy_usage (repository b)).
Proof.
  rewrite handle_replay_events_loop.
  destruct events; simpl;
    try (split; [apply same_but_watermark_refl | now left]);
    apply for_each_frame.
Qed.

(** C10.  Whatever response it is given, [handle_replay_events] leaves
    every attribute of the client other than [last_event_date] as it
    was; in particular the event store is the same afterwards, whether
    the batch held energy-usage events, weather events or anything else,
    and whether or not the loop ran to its end. *)
Theorem handle_replay_events_writes_only_watermark
    (events : value) (b : ReplayBroker Store Event) :
  repository (snd (handle_replay_events events b)) = repository b /\
  remote_replay_socket (snd (handle_replay_events events b))
  = remote_replay_socket b /\
  remote_replay_address (snd (handle_replay_events events b))
  = remote_replay_address b /\
  request_in_progress (snd (handle_replay_events events b))
  = request_in_progress b /\
  first_event_date (snd (handle_replay_events events b))
  = first_event_date b.
Proof. exact (proj1 (handle_replay_events_frame events b)). Qed.

Lemma apply_one_ok (msg d n : value) (b : ReplayBroker Store Event) :
  deserialize_msg msg = Ok d ->
  getitem d "name" = Ok n ->
  apply_one msg b
  = (Ok tt,
     {| repository := repository b;
        last_event_date := find_latest_energy_usage (repository b);
        remote_replay_socket := remote_replay_socket b;
        remote_replay_address := remote_replay_address b;
        request_in_progress := request_in_progress b;
        first_event_date := first_event_date b;
        effects := effects b ++ apply_effects msg |}).
Proof.
  intros D N. unfold apply_one, apply_effects, kind_effects. monad_unfold.
  simpl. rewrite D. simpl. rewrite N. simpl.
  destruct (eq_str n "energy_usage"); simpl.
  - repeat rewrite <- app_assoc. reflexivity.
  - destruct (eq_str n "weather"); simpl;
      repeat rewrite <- app_assoc; reflexivity.
Qed.

Lemma for_each_apply_ok (msgs : list value) (b : ReplayBroker Store Event) :
  Forall (fun msg => exists d n,
            deserialize_msg msg = Ok d /\ getitem d "name" = Ok n) msgs ->
  for_each msgs apply_one b
  = (Ok tt,
     {| repository := repository b;
        last_event_date := match msgs with
                           | [] => last_event_date b
                           | _ => find_latest_energy_usage (repository b)
                           end;
        remote_replay_socket := remote_replay_socket b;
        remote_replay_address := remote_replay_address b;
        request_in_progress := request_in_progress b;
        first_event_date := first_event_date b;
        effects := effects b ++ flat_map apply_effects msgs |}).
Proof.
  intros H. revert b. induction H as [| msg msgs (d & n & D & N) _ IH];
    intros b; simpl.
  - rewrite app_nil_r. destruct b; reflexivity.
  - unfold bind. rewrite (apply_one_ok msg d n b D N).
    rewrite IH. simpl. rewrite <- app_assoc.
    destruct msgs; reflexivity.
Qed.

(** C3, as the code has it.  A non-empty batch whose messages all
    deserialize to something with a name is applied in response order:
    each message is deserialized, an energy-usage event is logged and a
    weather event printed, nothing is written to the store, and after
    each message the store is asked again for its latest event, which is
    the watermark at the end. *)
Theorem handle_replay_events_in_order (msgs : list value) (b : ReplayBroker Store Event) :
  msgs <> [] ->
  Forall (fun msg => exists d n,
            deserialize_msg msg = Ok d /\ getitem d "name" = Ok n) msgs ->
  handle_replay_events (VList msgs) b
  = (Ok tt,
     {| repository := repository b;
        last_event_date := find_latest_energy_usage (repository b);
        remote_replay_socket := remote_replay_socket b;
        remote_replay_address := remote_replay_address b;
        request_in_progress := request_in_progress b;
        first_event_date := first_event_date b;
        effects := effects b ++ flat_map apply_effects msgs |}).
Proof.
  intros NE H. rewrite handle_replay_events_loop. simpl.
  rewrite (for_each_apply_ok msgs b H).
  destruct msgs; [contradiction | reflexivity].
Qed.

End ApplyPath.

Section Worker.

Context {Store Event : Type} {repo : Repository Store Event} {codec : Codec Event}.

Ltac monad_unfold :=
  unfold update_socket, set_last_event_date, set_remote_replay_socket,
    set_request_in_progress, emit, may_raise, lift, get, bind, ret, raise in *.

Lemma finally_block_spec (b : ReplayBroker Store Event) :
  finally_block b
  = match remote_replay_socket b with
    | Some s =>
        (Ok tt,
         {| repository := repository b;
            last_event_date := last_event_date b;
            remote_replay_socket := Some (close s);
            remote_replay_address := remote_replay_address b;
            request_in_progress := false;
            first_event_date := first_event_date b;
            effects := effects b ++ [SockClose] |})
    | None => (Raise AttributeError, b)
    end.
Proof.
  unfold finally_block. monad_unfold. simpl.
  destruct (remote_replay_socket b); reflexivity.
Qed.

(** What the body of [try] can have done when it ends, however it ends. *)
Lemma try_block_frame (u : upstream) (request : value) (timeout : Z)
    (b : ReplayBroker Store Event) :
  let b' := snd (try_block u request timeout b) in
  repository b' = repository b /\
  remote_replay_address b' = remote_replay_address b /\
  request_in_progress b' = request_in_progress b /\
  first_event_date b' = first_event_date b /\
  (last_event_date b' = last_event_date b \/
   last_event_date b' = find_latest_energy_usage (repository b)) /\
  (remote_replay_socket b <> None -> remote_replay_socket b' <> None) /\
  (socket_raises u = None -> remote_replay_socket b' <> None).
Proof.
  unfold try_block. monad_unfold. simpl.
  destruct (socket_raises u); simpl;
    [repeat split; auto; discriminate |].
  destruct (connect_timeout_raises u); simpl;
    [repeat split; auto; discriminate |].
  destruct (rcvtimeo_raises u); simpl;
    [repeat split; auto; discriminate |].
  destruct (remote_replay_address b); simpl;
    [| repeat split; auto; discriminate].
  destruct (connect_raises u); simpl;
    [repeat split; auto; discriminate |].
  destruct (py_get request "type"); simpl;
    [| repeat split; auto; discriminate].
  destruct (send_raises u); simpl;
    [repeat split; auto; discriminate |].
  destruct (recv_result u) as [response | e]; simpl;
    [| repeat split; auto; discriminate].
  match goal with
  | |- context [handle_replay_events response ?B] =>
      destruct (handle_replay_events_frame response B) as [F W];
      destruct (handle_replay_events response B) as [r b']
  end.
  unfold same_but_watermark in F. simpl in *.
  destruct F as (R & S & A & P & F).
  repeat split; try assumption; try (rewrite S; discriminate).
Qed.

(** The body of [try] leaves the watermark alone when no response
    reaches the apply path. *)
Lemma try_block_no_response (u : upstream) (request : value) (timeout : Z)
    (b : ReplayBroker Store Event) :
  no_response u ->
  last_event_date (snd (try_block u request timeout b)) = last_event_date b.
Proof.
  intros NR. unfold no_response in NR. unfold try_block. monad_unfold. simpl.
  destruct (socket_raises u); simpl; [reflexivity |].
  destruct (connect_timeout_raises u); simpl; [reflexivity |].
  destruct (rcvtimeo_raises u); simpl; [reflexivity |].
  destruct (remote_replay_address b); simpl; [| reflexivity].
  destruct (connect_raises u); simpl; [reflexivity |].
  destruct (py_get request "type"); simpl; [| reflexivity].
  destruct (send_raises u); simpl; [reflexivity |].
  destruct (recv_result u) as [response | e]; simpl; [| reflexivity].
  destruct (NR response eq_refl) as [H | [H | [H | [H | H]]]];
    contradiction.
Qed.

Lemma worker_frame (u : upstream) (request : value) (timeout : Z)
    (b : ReplayBroker Store Event) :
  let b' := snd (_send_replay_request u request timeout b) in
  repository b' = repository b /\
  remote_replay_address b' = remote_replay_address b /\
  first_event_date b' = first_event_date b /\
  (last_event_date b' = last_event_date b \/
   last_event_date b' = find_latest_energy_usage (repository b)).
Proof.
  unfold _send_replay_request, try_finally, try_except.
  pose proof (try_block_frame u request timeout b) as T. simpl in T.
  destruct (try_block u request timeout b) as [r b1]. simpl in T.
  destruct T as (R & A & P & F & W & _).
  assert (X : forall r1 b2,
             repository b2 = repository b1 ->
             remote_replay_address b2 = remote_replay_address b1 ->
             first_event_date b2 = first_event_date b1 ->
             last_event_date b2 = last_event_date b1 ->
             let b' := snd (let (r0, b') := (r1, b2) : result unit * _ in
                            match finally_block b' with
                            | (Ok _, b'') => (r0, b'')
                            | (Raise e, b'') => (Raise e, b'')
                            end) in
             repository b' = repository b /\
             remote_replay_address b' = remote_replay_address b /\
             first_event_date b' = first_event_date b /\
             (last_event_date b' = last_event_date b \/
              last_event_date b'
              = find_latest_energy_usage (repository b))).
  { intros r1 b2 R2 A2 F2 W2. simpl. rewrite finally_block_spec.
    destruct (remote_replay_socket b2); simpl;
      rewrite R2, A2, F2, W2; tauto. }
  destruct r as [[] | e].
  - apply X; reflexivity.
  - destruct (is_Again e).
    + unfold except_block. monad_unfold. simpl. apply X; reflexivity.
    + apply X; reflexivity.
Qed.

Lemma worker_no_response (u : upstream) (request : value) (timeout : Z)
    (b : ReplayBroker Store Event) :
  no_response u ->
  last_event_date (snd (_send_replay_request u request timeout b))
  = last_event_date b.
Proof.
  intros NR. unfold _send_replay_request, try_finally, try_except.
  pose proof (try_block_no_response u request timeout b NR) as T.
  destruct (try_block u request timeout b) as [r b1]. simpl in T.
  destruct r as [[] | e]; [| destruct (is_Again e)];
    try (unfold except_block; monad_unfold; simpl);
    rewrite finally_block_spec; simpl;
    destruct (remote_replay_socket b1); simpl; assumption.
Qed.

(** The part of the release that holds: once the attribute
    [remote_replay_socket] holds a socket when [finally] is reached, the
    worker closes it and clears the flag, however the body of [try]
    ended. *)
Lemma worker_clears_flag (u : upstream) (request : value) (timeout : Z)
    (b : ReplayBroker Store Event) :
  remote_replay_socket b <> None \/ socket_raises u = None ->
  let b' := snd (_send_replay_request u request timeout b) in
  request_in_progress b' = false /\
  exists s, remote_replay_socket b' = Some s /\ closed s = true.
Proof.
  intros H. unfold _send_replay_request, try_finally, try_except.
  pose proof (try_block_frame u request timeout b) as T. simpl in T.
  destruct (try_block u request timeout b) as [r b1]. simpl in T.
  destruct T as (_ & _ & _ & _ & _ & S1 & S2).
  assert (S : remote_replay_socket b1 <> None) by (destruct H; auto).
  destruct (remote_replay_socket b1) as [s |] eqn:E; [| contradiction].
  destruct r as [[] | e]; [| destruct (is_Again e)];
    try (unfold except_block; monad_unfold; simpl);
    rewrite finally_block_spec; simpl; rewrite E; simpl;
    (split; [reflexivity | eexists; split; reflexivity]).
Qed.

Lemma tick_dispatches (interval timeout : Z) (b : ReplayBroker Store Event) :
  request_in_progress b = false ->
  In (ThreadStart (replay_request b) timeout)
     (effects (snd (replay_request_tick interval timeout b))).
Proof.
  intros F.
  unfold replay_request_tick, send_replay_request, set_request_in_progress,
    sleep, emit, get, bind, ret, raise.
  simpl. rewrite F. simpl.
  destruct (interval <? 0)%Z; simpl.
  - apply in_or_app; left. apply in_or_app. right. now left.
  - do 2 (apply in_or_app; left). apply in_or_app. right. now left.
Qed.

(** C6.  A dispatch whose exchange with the upstream ends in
    [zmq.error.Again] (the peer is away or does not answer within the
    timeout): the worker logs the warning, sleeps 5, closes the socket
    and clears the flag; the watermark and the store are as before, the
    worker returns without an exception, and the next tick dispatches
    the same request again. *)
Theorem timeout_is_recovered (u : upstream) (d : list (string * value))
    (timeout : Z) (address : string) (b : ReplayBroker Store Event) :
  remote_replay_address b = Some address ->
  times_out u ->
  let r := _send_replay_request u (VDict d) timeout b in
  fst r = Ok tt /\
  last_event_date (snd r) = last_event_date b /\
  repository (snd r) = repository b /\
  request_in_progress (snd r) = false /\
  (exists s, remote_replay_socket (snd r) = Some s /\ closed s = true) /\
  (exists before : list effect,
     effects (snd r)
     = (effects b ++ before ++
        [LogWarning
           "Resource temporarily unavailable. Retrying in 5 sec later...";
         Sleep 5; SockClose])%list) /\
  forall interval timeout',
    In (ThreadStart (replay_request b) timeout')
       (effects (snd (replay_request_tick interval timeout' (snd r)))).
Proof.
  intros A (S & C & R & X).
  assert (Main :
    let r := _send_replay_request u (VDict d) timeout b in
    fst r = Ok tt /\
    last_event_date (snd r) = last_event_date b /\
    repository (snd r) = repository b /\
    request_in_progress (snd r) = false /\
    (exists s, remote_replay_socket (snd r) = Some s /\ closed s = true) /\
    (exists before : list effect,
       effects (snd r)
       = (effects b ++ before ++
          [LogWarning
             "Resource temporarily unavailable. Retrying in 5 sec later...";
           Sleep 5; SockClose])%list)).
  { unfold _send_replay_request, try_finally, try_except, try_block,
      except_block, finally_block.
    monad_unfold. simpl. rewrite S, C, R. simpl. rewrite A. simpl.
    destruct X as [X | [(X1 & X) | (X1 & X2 & X)]].
    - rewrite X. simpl. repeat split; try reflexivity.
      + eexists; split; reflexivity.
      + exists []. repeat rewrite <- app_assoc. reflexivity.
    - rewrite X1. simpl. rewrite X. simpl. repeat split; try reflexivity.
      + eexists; split; reflexivity.
      + exists [LogInfo "Sending replay request "
                  (match lookup "type" d with Some x => x | None => VNone end)].
        repeat rewrite <- app_assoc. reflexivity.
    - rewrite X1. simpl. rewrite X2. simpl. rewrite X. simpl.
      repeat split; try reflexivity.
      + eexists; split; reflexivity.
      + exists [LogInfo "Sending replay request "
                  (match lookup "type" d with Some x => x | None => VNone end);
                SockSend (VDict d)].
        repeat rewrite <- app_assoc. reflexivity. }
  simpl in *. destruct Main as (M1 & M2 & M3 & M4 & M5 & M6).
  repeat (split; [assumption |]).
  intros interval timeout'.
  pose proof (tick_dispatches interval timeout' _ M4) as T.
  unfold replay_request in *. rewrite M2 in T. exact T.
Qed.

End Worker.

Section Server.

Context {Store Event : Type} {repo : Repository Store Event} {codec : Codec Event}.

Lemma typed_request_truthy (d : list (string * value)) (t : value) :
  lookup "type" d = Some t -> truthy (VDict d) = true.
Proof. destruct d; [discriminate | reflexivity]. Qed.

(** C4.  A request that carries a type is answered from the store.  For
    [replay_by_timestamp], with a [last_event_date] that deserializes to
    something with an [arrival_time], the reply is the events the store
    returns for [find_energy_after_arrival_time] at that arrival time;
    for [replay_all] it is what [get_all_events] returns.  Either way
    each event is serialized, the order is the one the store returned,
    and the list is sent back on the replay socket. *)
Theorem replay_server_reply (events : option (list Event))
    (d : list (string * value)) (b : ReplayBroker Store Event) :
  (lookup "type" d = Some (VStr "replay_by_timestamp") ->
   forall raw watermark arrival_time,
     py_get (VDict d) "last_event_date" = Ok raw ->
     deserialize_msg raw = Ok watermark ->
     getitem watermark "arrival_time" = Ok arrival_time ->
     let found :=
       find_energy_after_arrival_time (repository b) arrival_time in
     replay_server_turn events (VDict d) b
     = (Ok (Some found),
        {| repository := repository b;
           last_event_date := last_event_date b;
           remote_replay_socket := remote_replay_socket b;
           remote_replay_address := remote_replay_address b;
           request_in_progress := request_in_progress b;
           first_event_date := first_event_date b;
           effects :=
             effects b ++
             [LogInfo "Got replay request " (VDict d);
              Deserialize raw;
              FindAfter arrival_time;
              Reply (VList (map serialize_msg found));
              Sleep 1] |})) /\
  (lookup "type" d = Some (VStr "replay_all") ->
   let found := get_all_events (repository b) in
   replay_server_turn events (VDict d) b
   = (Ok (Some found),
      {| repository := repository b;
         last_event_date := last_event_date b;
         remote_replay_socket := remote_replay_socket b;
         remote_replay_address := remote_replay_address b;
         request_in_progress := request_in_progress b;
         first_event_date := first_event_date b;
         effects :=
           effects b ++
           [LogInfo "Got replay request " (VDict d);
            GetAllEvents;
            Reply (VList (map serialize_msg found));
            Sleep 1] |})).
Proof.
  split.
  - intros T raw watermark arrival_time G D A found.
    pose proof (typed_request_truthy d _ T) as Tr.
    unfold replay_server_turn, emit, lift, get, bind, ret, raise.
    rewrite Tr. unfold py_get at 1. rewrite T.
    cbn [eq_str String.eqb Ascii.eqb Bool.eqb fst snd].
    rewrite G, D, A. cbn [fst snd effects repository last_event_date
      remote_replay_socket remote_replay_address request_in_progress
      first_event_date].
    repeat rewrite <- app_assoc. reflexivity.
  - intros T found.
    pose proof (typed_request_truthy d _ T) as Tr.
    unfold replay_server_turn, emit, lift, get, bind, ret, raise.
    rewrite Tr. unfold py_get at 1. rewrite T.
    cbn [eq_str String.eqb Ascii.eqb Bool.eqb fst snd effects repository
      last_event_date remote_replay_socket remote_replay_address
      request_in_progress first_event_date].
    repeat rewrite <- app_assoc. reflexivity.
Qed.

End Server.

Section Lifecycle.

Context {Store Event : Type} {repo : Repository Store Event} {codec : Codec Event}.

(** The order of the store on its events, and the assumption that other
    writers only ever move its latest event forward. *)
Variable le : Event -> Event -> Prop.
Hypothesis le_refl : forall e, le e e.
Hypothesis le_trans : forall e1 e2 e3, le e1 e2 -> le e2 e3 -> le e1 e3.

Variable store_evolves : Store -> Store -> Prop.
Hypothesis latest_monotone : forall s s',
  store_evolves s s' ->
  watermark_le le (find_latest_energy_usage s) (find_latest_energy_usage s').

Lemma watermark_le_refl (w : option Event) : watermark_le le w w.
Proof. destruct w; simpl; auto. Qed.

Lemma watermark_le_trans (w1 w2 w3 : option Event) :
  watermark_le le w1 w2 -> watermark_le le w2 w3 -> watermark_le le w1 w3.
Proof.
  destruct w1, w2, w3; simpl; try tauto. apply le_trans.
Qed.

Lemma tick_frame (interval timeout : Z) (b : ReplayBroker Store Event) :
  repository (snd (replay_request_tick interval timeout b)) = repository b /\
  last_event_date (snd (replay_request_tick interval timeout b))
  = last_event_date b.
Proof.
  unfold replay_request_tick, send_replay_request, set_request_in_progress,
    sleep, emit, get, bind, ret, raise.
  simpl. destruct (request_in_progress b); simpl;
    destruct (interval <? 0)%Z; simpl; split; reflexivity.
Qed.

Lemma client_step_monotone (b b' : ReplayBroker Store Event) :
  behind_store le b ->
  client_step store_evolves b b' ->
  watermark_le le (last_event_date b) (last_event_date b') /\
  behind_store le b'.
Proof.
  unfold behind_store. intros I H. destruct H as
    [b s E | b address | b interval timeout | b u request timeout
     | b event]; simpl.
  - split; [apply watermark_le_refl |].
    eapply watermark_le_trans; [exact I | apply latest_monotone, E].
  - split; [apply watermark_le_refl | exact I].
  - destruct (tick_frame interval timeout b) as [R W].
    rewrite R, W. split; [apply watermark_le_refl | exact I].
  - pose proof (worker_frame u request timeout b) as F. simpl in F.
    destruct F as (R & _ & _ & [W | W]); rewrite R, W.
    + split; [apply watermark_le_refl | exact I].
    + split; [exact I | apply watermark_le_refl].
  - destruct (apply_one_frame event b) as [(R & _) [W | W]]; rewrite R, W.
    + split; [apply watermark_le_refl | exact I].
    + split; [exact I | apply watermark_le_refl].
Qed.

Lemma batch_run_steps (msgs : list value) (b b' : ReplayBroker Store Event) :
  batch_run store_evolves msgs b b' ->
  clos_refl_trans_1n _ (client_step store_evolves) b b'.
Proof.
  induction 1 as [b | b s msgs b' E _ IH | b msg msgs b' _ _ IH
                  | b msg msgs e _].
  - apply rt1n_refl.
  - eapply Relation_Operators.rt1n_trans; [apply store_step, E | exact IH].
  - eapply Relation_Operators.rt1n_trans; [apply apply_step | exact IH].
  - eapply Relation_Operators.rt1n_trans; [apply apply_step | apply rt1n_refl].
Qed.

Lemma client_reachable_behind_store (b : ReplayBroker Store Event) :
  client_reachable store_evolves b -> behind_store le b.
Proof.
  induction 1 as [store | b b' _ IH H].
  - unfold behind_store. simpl. apply watermark_le_refl.
  - apply (client_step_monotone b b' IH H).
Qed.

Lemma client_steps_monotone (b b' : ReplayBroker Store Event) :
  clos_refl_trans_1n _ (client_step store_evolves) b b' ->
  behind_store le b ->
  watermark_le le (last_event_date b) (last_event_date b').
Proof.
  induction 1 as [b | b b1 b' H _ IH]; intros I.
  - apply watermark_le_refl.
  - destruct (client_step_monotone b b1 I H) as [W I1].
    eapply watermark_le_trans; [exact W | apply IH, I1].
Qed.

Lemma quiet_step_watermark (b b' : ReplayBroker Store Event) :
  quiet_step store_evolves b b' -> last_event_date b' = last_event_date b.
Proof.
  intros H. destruct H as
    [b s E | b address | b interval timeout | b u request timeout NR]; simpl.
  - reflexivity.
  - reflexivity.
  - apply tick_frame.
  - apply worker_no_response, NR.
Qed.

(** C8.  With a store whose latest event only moves forward, a client
    that has got where it is by the code (started from the store, then
    ticks, workers and insertions by others) holds, after the apply path
    has been through a non-empty batch, a watermark that is not below
    the one it held before; this is so too when the loop is cut short by
    a message that fails to deserialize, and when other writers insert
    into the store between two messages of the batch. *)
Theorem watermark_monotone (events msg : value) (msgs : list value)
    (b : ReplayBroker Store Event) :
  client_reachable store_evolves b ->
  iter events = Ok (msg :: msgs) ->
  watermark_le le (last_event_date b)
    (last_event_date (snd (handle_replay_events events b))) /\
  forall b',
    batch_run store_evolves (msg :: msgs) b b' ->
    watermark_le le (last_event_date b) (last_event_date b').
Proof.
  intros R _. pose proof (client_reachable_behind_store b R) as I. split.
  - destruct (handle_replay_events_frame events b) as [_ [W | W]];
      rewrite W; [apply watermark_le_refl | exact I].
  - intros b' B. apply client_steps_monotone; [| exact I].
    apply (batch_run_steps _ _ _ B).
Qed.

(** C5.  The request of a dispatch is [{"type": "replay_all"}] exactly
    when the watermark is [None], and otherwise the
    [replay_by_timestamp] request carrying the serialized watermark.
    So a client without a watermark asks for everything again after
    every move that brought no response; and once a client holds a
    watermark, every request after that, whatever happens in between,
    is [replay_by_timestamp] (the store's latest event only moving
    forward). *)
Theorem request_follows_watermark :
  (forall b : ReplayBroker Store Event,
     replay_request b = VDict [("type", VStr "replay_all")] <->
     last_event_date b = None) /\
  (forall (b : ReplayBroker Store Event) w,
     last_event_date b = Some w ->
     replay_request b
     = VDict [("type", VStr "replay_by_timestamp");
              ("last_event_date", serialize_msg w)]) /\
  (forall (b : ReplayBroker Store Event) timeout,
     In (ThreadStart (replay_request b) timeout)
        (effects (snd (send_replay_request timeout b)))) /\
  (forall b b' : ReplayBroker Store Event,
     last_event_date b = None ->
     clos_refl_trans_1n _ (quiet_step store_evolves) b b' ->
     replay_request b' = VDict [("type", VStr "replay_all")]) /\
  (forall (b b' : ReplayBroker Store Event) w,
     client_reachable store_evolves b ->
     last_event_date b = Some w ->
     clos_refl_trans_1n _ (client_step store_evolves) b b' ->
     exists w',
       replay_request b'
       = VDict [("type", VStr "replay_by_timestamp");
                ("last_event_date", serialize_msg w')]).
Proof.
  split; [| split; [| split; [| split]]].
  - intros b. unfold replay_request.
    destruct (last_event_date b); split; intros H;
      try reflexivity; discriminate.
  - intros b w H. unfold replay_request. rewrite H. reflexivity.
  - intros b timeout.
    unfold send_replay_request, set_request_in_progress, emit, get, bind, ret.
    simpl. apply in_or_app. left. apply in_or_app. right. now left.
  - intros b b' N H.
    assert (E : last_event_date b' = None).
    { induction H as [b | b b1 b' S _ IH]; [exact N |].
      apply IH. rewrite (quiet_step_watermark _ _ S). exact N. }
    unfold replay_request. rewrite E. reflexivity.
  - intros b b' w R W H.
    pose proof (client_steps_monotone b b' H
                  (client_reachable_behind_store b R)) as M.
    rewrite W in M. unfold replay_request.
    destruct (last_event_date b') as [w' |]; [| contradiction].
    exists w'. reflexivity.
Qed.

End Lifecycle.

Section Interleavings.

Import Threads.

Lemma worker_next_cases (w w' : worker_pc) (a : action) :
  In (a, w') (worker_next w) ->
  active w = true /\
  ((a = WriteFlag false /\ w = WClear /\ w' = WDone) \/
   (a = Tau /\ w <> WClear)).
Proof.
  destruct w; simpl; intros H;
    repeat (destruct H as [H | H]; [inversion H; subst; clear H |]);
    try contradiction; split; try reflexivity;
    try (right; split; [reflexivity | discriminate]).
  left. repeat split.
Qed.

Lemma active_set_nth (ws : list worker_pc) (i : nat) (w w' : worker_pc) :
  nth_error ws i = Some w ->
  (List.length (filter active (set_nth i w' ws))
   + (if active w then 1 else 0)
   = List.length (filter active ws) + (if active w' then 1 else 0))%nat.
Proof.
  revert i. induction ws as [| x ws IH]; intros i H.
  - destruct i; discriminate.
  - destruct i as [| i]; simpl in *.
    + inversion H; subst. destruct (active w), (active w'); simpl; lia.
    + specialize (IH i H). destruct (active x); simpl; lia.
Qed.

Lemma active_spawn (ws : list worker_pc) :
  List.length (filter active (ws ++ [WTry]))
  = S (List.length (filter active ws)).
Proof.
  rewrite filter_app, length_app. simpl. lia.
Qed.

Lemma inv_init : inv init.
Proof.
  unfold inv, active_workers. simpl. repeat split; [lia | lia].
Qed.

Lemma inv_step (s s' : sys) (t : thread) (a : action) :
  inv s -> step s t a s' -> inv s'.
Proof.
  unfold inv, active_workers.
  intros (N & F & P & L) H. destruct H as [s a s' H | s i w a w' E H].
  - unfold loop_next in H. destruct (loop s) eqn:PC.
    + destruct H as [H | []]. inversion H; subst; clear H. simpl.
      destruct (flag s) eqn:Fl; repeat split; auto.
      destruct (List.length (filter active (workers s))) as [| n];
        [reflexivity |].
      assert (false = true) by (apply F; lia). discriminate.
    + destruct H as [H | []]. inversion H; subst; clear H. simpl.
      repeat split; auto.
    + rewrite L in H. destruct H as [H | []].
      inversion H; subst; clear H. simpl. repeat split; auto.
    + destruct H as [H | []]. inversion H; subst; clear H. simpl.
      repeat split; auto.
    + destruct H as [H | []]. inversion H; subst; clear H. simpl.
      destruct P as [P Fl]. rewrite active_spawn, P.
      repeat split; auto.
    + destruct H as [H | []]. inversion H; subst; clear H. simpl.
      repeat split; auto.
    + destruct H as [H | []]. inversion H; subst; clear H. simpl.
      repeat split; auto.
  - simpl. pose proof (active_set_nth (workers s) i w w' E) as C.
    destruct (worker_next_cases w w' a H) as [Aw [(-> & -> & ->) | (-> & NW)]];
      simpl in *.
    + assert (Z1 : List.length (filter active (set_nth i WDone (workers s)))
                   = 0%nat) by lia.
      rewrite Z1.
      repeat split; try lia; try assumption.
      destruct (loop s); try exact I; try (exfalso; lia);
        destruct P; exfalso; lia.
    + rewrite Aw in C.
      assert (Le : (List.length (filter active (workers s))
                    = List.length (filter active (set_nth i w' (workers s)))
                      + (if active w' then 0 else 1))%nat)
        by (destruct (active w'); lia).
      repeat split; try lia; try assumption.
      * intros One. apply F. lia.
      * destruct (loop s); try exact I; try lia.
        destruct P as [P Fl]. split; [lia | exact Fl].
Qed.

Lemma reachable_inv (s : sys) : reachable s -> inv s.
Proof.
  induction 1 as [| s t a s' _ IH H]; [apply inv_init |].
  apply (inv_step s s' t a IH H).
Qed.

(** C2.  In every state the loop thread and its workers can get into,
    at most one worker is active.  The loop goes on from its check to a
    dispatch only when it has read the flag as false, and goes to sleep
    otherwise; a worker is spawned only by the loop, with the flag
    already set to true and no other worker active. *)
Theorem at_most_one_worker (s : sys) :
  reachable s ->
  (active_workers s <= 1)%nat /\
  (forall a s', step s Loop a s' -> loop s = LCheck ->
     a = ReadFlag (flag s) /\
     loop s' = (if flag s then LSleep else LBuild) /\
     workers s' = workers s) /\
  (forall t s', step s t Spawn s' ->
     t = Loop /\ flag s = true /\ active_workers s = 0%nat /\
     workers s' = (workers s ++ [WTry])%list).
Proof.
  intros R. destruct (reachable_inv s R) as (N & F & P & L).
  split; [exact N | split].
  - intros a s' H PC. inversion H as [s0 a0 s0' Hin | ]; subst.
    unfold loop_next in Hin. rewrite PC in Hin.
    destruct Hin as [Hin | []]. inversion Hin; subst. simpl.
    repeat split.
  - intros t s' H. inversion H as [s0 a0 s0' Hin | s0 i w a0 w' E Hin]; subst.
    + unfold loop_next in Hin.
      destruct (loop s) eqn:PC;
        try (rewrite L in Hin);
        destruct Hin as [Hin | []]; inversion Hin; subst.
      destruct P as [P Fl]. simpl. repeat split; assumption.
    + destruct (worker_next_cases w w' Spawn Hin)
        as [_ [(X & _) | (X & _)]]; discriminate.
Qed.

(** C7, as the code has it.  The flag is set to true by the loop thread
    alone, and then the loop holds [send_replay_lock]; it is set to
    false by a worker alone, and a worker never holds the lock: the
    assignment in [finally] is made outside it. *)
Theorem flag_writes_and_lock (s s' : sys) (t : thread) (b : bool) :
  reachable s ->
  step s t (WriteFlag b) s' ->
  (b = true -> t = Loop /\ lock s = Some Loop) /\
  (b = false -> (exists i, t = Worker i) /\ lock s <> Some t).
Proof.
  intros R H. destruct (reachable_inv s R) as (_ & _ & _ & L).
  inversion H as [s0 a0 s0' Hin | s0 i w a0 w' E Hin]; subst.
  - unfold loop_next in Hin.
    destruct (loop s) eqn:PC;
      try (rewrite L in Hin);
      destruct Hin as [Hin | []]; inversion Hin; subst.
    split; [intros _; split; [reflexivity | exact L] | discriminate].
  - destruct (worker_next_cases w w' _ Hin) as [_ [(X & _) | (X & _)]];
      [| discriminate].
    inversion X; subst. split; [discriminate |].
    intros _. split; [exists i; reflexivity |].
    rewrite L. destruct (loop s); discriminate.
Qed.

Lemma reachable_loop (s s' : sys) (a : action) :
  reachable s -> loop_next s = [(a, s')] -> reachable s'.
Proof.
  intros R E. apply (reachable_step s Loop a s' R).
  apply step_loop. rewrite E. now left.
Qed.

(** The worker about to clear the flag, the loop asleep, the lock free. *)
Lemma reachable_before_clear :
  reachable {| flag := true; lock := None; loop := LSleep;
               workers := [WClear] |}.
Proof.
  pose proof (reachable_loop _ _ _ reachable_init eq_refl) as R.
  pose proof (reachable_loop _ _ _ R eq_refl) as R1; clear R.
  pose proof (reachable_loop _ _ _ R1 eq_refl) as R; clear R1.
  pose proof (reachable_loop _ _ _ R eq_refl) as R1; clear R.
  pose proof (reachable_loop _ _ _ R1 eq_refl) as R; clear R1.
  pose proof (reachable_loop _ _ _ R eq_refl) as R1; clear R.
  rename R1 into R.
  simpl in R.
  pose proof (reachable_step _ (Worker 0) Tau _ R
                (step_worker
                   {| flag := true; lock := None; loop := LSleep;
                      workers := [WTry] |}
                   0 WTry Tau WClose eq_refl (or_introl eq_refl))) as R1.
  simpl in R1.
  exact (reachable_step _ (Worker 0) Tau _ R1
           (step_worker
              {| flag := true; lock := None; loop := LSleep;
                 workers := [WClose] |}
              0 WClose Tau WClear eq_refl (or_introl eq_refl))).
Qed.

(** C7, as it is worded, fails: the worker clears the flag while nobody
    holds the lock. *)
Lemma flag_cleared_outside_lock :
  ~ (forall s t a s',
       reachable s -> step s t a s' -> writes_flag a -> lock s = Some t).
Proof.
  intros C.
  specialize (C {| flag := true; lock := None; loop := LSleep;
                   workers := [WClear] |}
                (Worker 0) (WriteFlag false)
                {| flag := false; lock := None; loop := LSleep;
                   workers := [WDone] |}
                reachable_before_clear
                (step_worker
                   {| flag := true; lock := None; loop := LSleep;
                      workers := [WClear] |}
                   0 WClear (WriteFlag false) WDone eq_refl
                   (or_introl eq_refl))
                (ex_intro _ false eq_refl)).
  discriminate C.
Qed.

End Interleavings.

Section Constructing.

Import Construction.





End Constructing.

(** * The statements on the store of arrival times *)

Section OnExample.

Import Example.

Lemma inserted_latest_monotone (s s' : list Z) :
  inserted s s' -> watermark_le Z.le (latest s) (latest s').
Proof.
  intros [t ->]. simpl. destruct (latest s); simpl; [lia | exact I].
Qed.

Lemma client_is_reachable : client_reachable inserted client.
Proof.
  apply (reach_step inserted (init_replay_state [10; 20; 30])).
  - apply reach_init.
  - apply connect_step.
Qed.

(** C1, at the input where it fails.  A broker that has never had a
    replay socket dispatches a request and the creation of the socket
    raises: the [finally] block then fails on [None.close()] before it
    gets to the flag, the worker dies of [AttributeError] with
    [request_in_progress] still true, and the next tick does nothing but
    sleep. *)
Theorem flag_stays_set_when_no_socket :
  let b := snd (replay_request_tick 2 60 client) in
  let r := _send_replay_request upstream_no_socket (replay_request b) 60 b in
  remote_replay_socket b = None /\
  request_in_progress b = true /\
  fst r = Raise AttributeError /\
  request_in_progress (snd r) = true /\
  effects (snd (replay_request_tick 2 60 (snd r)))
  = (effects (snd r) ++ [Sleep 2])%list.
Proof. repeat split. Qed.

(** C3, as it is worded, fails: an energy-usage event of the batch is
    deserialized and logged, and the store holds what it held before;
    the loop that persists, as the specification words it, would have
    left the event in the store. *)
Lemma energy_usage_event_not_persisted :
  let b' := snd (handle_replay_events (VList [wire 40]) client) in
  deserialize_msg (wire 40) = Ok (wire 40) /\
  getitem (wire 40) "name" = Ok (VStr "energy_usage") /\
  effects b'
  = [Deserialize (wire 40); LogInfo "Got energy replay: " (wire 40);
     FindLatest] /\
  repository b' = repository client /\
  ~ In 40 (get_all_events (repository b')) /\
  repository (snd (handle_replay_events_spec (VList [wire 40]) client))
  = [40; 10; 20; 30].
Proof.
  repeat split. simpl. intros [H | [H | [H | []]]]; discriminate.
Qed.

End OnExample.

Section Witnesses.

Import Example.

(** Scenario B on the server side: asked for what came after arrival
    time 20, the server replies with the event at 30. *)
Lemma replay_server_reply_witness :
  let d := [("type", VStr "replay_by_timestamp");
            ("last_event_date", wire 20)] in
  lookup "type" d = Some (VStr "replay_by_timestamp") /\
  py_get (VDict d) "last_event_date" = Ok (wire 20) /\
  deserialize_msg (wire 20) = Ok (wire 20) /\
  getitem (wire 20) "arrival_time" = Ok (VInt 20) /\
  replay_server_turn None (VDict d) client
  = (Ok (Some [30]),
     {| repository := [10; 20; 30];
        last_event_date := Some 30;
        remote_replay_socket := None;
        remote_replay_address := Some "tcp://upstream:5561";
        request_in_progress := false;
        first_event_date := None;
        effects :=
          [LogInfo "Got replay request " (VDict d);
           Deserialize (wire 20);
           FindAfter (VInt 20);
           Reply (VList [wire 30]);
           Sleep 1] |}).
Proof.
  split; [reflexivity |].
  split; [reflexivity |].
  split; [reflexivity |].
  split; [reflexivity |].
  exact (proj1 (replay_server_reply None
                  [("type", VStr "replay_by_timestamp");
                   ("last_event_date", wire 20)] client)
           eq_refl (wire 20) (wire 20) (VInt 20) eq_refl eq_refl eq_refl).
Defined.

(** A batch of an energy-usage event and a weather event. *)
Lemma handle_replay_events_in_order_witness :
  let msgs := [wire 40; VDict [("name", VStr "weather")]] in
  msgs <> [] /\
  Forall (fun msg => exists d n,
            deserialize_msg msg = Ok d /\ getitem d "name" = Ok n) msgs /\
  handle_replay_events (VList msgs) client
  = (Ok tt,
     {| repository := [10; 20; 30];
        last_event_date := Some 30;
        remote_replay_socket := None;
        remote_replay_address := Some "tcp://upstream:5561";
        request_in_progress := false;
        first_event_date := None;
        effects :=
          [Deserialize (wire 40);
           LogInfo "Got energy replay: " (wire 40);
           FindLatest;
           Deserialize (VDict [("name", VStr "weather")]);
           Print "got weather message";
           FindLatest] |}).
Proof.
  assert (NE : [wire 40; VDict [("name", VStr "weather")]] <> [])
    by discriminate.
  assert (D : Forall (fun msg => exists d n,
                        deserialize_msg msg = Ok d /\ getitem d "name" = Ok n)
                [wire 40; VDict [("name", VStr "weather")]]).
  { repeat constructor.
    - exists (wire 40), (VStr "energy_usage"). split; reflexivity.
    - exists (VDict [("name", VStr "weather")]), (VStr "weather").
      split; reflexivity. }
  split; [exact NE | split; [exact D |]].
  exact (handle_replay_events_in_order
           [wire 40; VDict [("name", VStr "weather")]] client NE D).
Defined.

(** Scenario C: the upstream does not answer. *)
Lemma timeout_is_recovered_witness :
  let d := [("type", VStr "replay_by_timestamp");
            ("last_event_date", wire 30)] in
  let r := _send_replay_request upstream_timeout (VDict d) 60 client in
  remote_replay_address client = Some "tcp://upstream:5561" /\
  times_out upstream_timeout /\
  fst r = Ok tt /\
  last_event_date (snd r) = Some 30 /\
  request_in_progress (snd r) = false.
Proof.
  assert (T : times_out upstream_timeout).
  { unfold times_out. simpl. repeat split. right. right. repeat split. }
  pose proof (timeout_is_recovered upstream_timeout
                [("type", VStr "replay_by_timestamp");
                 ("last_event_date", wire 30)]
                60 "tcp://upstream:5561" client eq_refl T) as H.
  destruct H as (R & W & _ & F & _).
  split; [reflexivity |].
  split; [exact T |].
  split; [exact R |].
  split; [exact W | exact F].
Defined.

(** The watermark of the client at 30 stays at 30 through a batch that
    holds the event at 40, which nothing has put into the store. *)
Lemma watermark_monotone_witness :
  client_reachable inserted client /\
  iter (VList [wire 40]) = Ok [wire 40] /\
  watermark_le Z.le (last_event_date client)
    (last_event_date (snd (handle_replay_events (VList [wire 40]) client))).
Proof.
  split; [exact client_is_reachable | split; [reflexivity |]].
  exact (proj1 (watermark_monotone Z.le Z.le_refl Z.le_trans inserted
                  inserted_latest_monotone (VList [wire 40]) (wire 40) []
                  client client_is_reachable eq_refl)).
Defined.

(** A client that holds a watermark asks by timestamp after a tick and a
    worker that ran into the timeout. *)
Lemma request_follows_watermark_witness :
  let b1 := snd (replay_request_tick 2 60 client) in
  let b2 := snd (_send_replay_request upstream_timeout (replay_request b1)
                   60 b1) in
  client_reachable inserted client /\
  last_event_date client = Some 30 /\
  clos_refl_trans_1n _ (client_step inserted) client b2 /\
  exists w',
    replay_request b2
    = VDict [("type", VStr "replay_by_timestamp");
             ("last_event_date", serialize_msg w')].
Proof.
  assert (P : clos_refl_trans_1n _ (client_step inserted) client
                (snd (_send_replay_request upstream_timeout
                        (replay_request (snd (replay_request_tick 2 60 client)))
                        60 (snd (replay_request_tick 2 60 client))))).
  { eapply Relation_Operators.rt1n_trans; [apply (tick_step inserted client 2 60) |].
    eapply Relation_Operators.rt1n_trans; [| apply rt1n_refl].
    apply (worker_step inserted (snd (replay_request_tick 2 60 client))
             upstream_timeout
             (replay_request (snd (replay_request_tick 2 60 client))) 60). }
  split; [exact client_is_reachable | split; [reflexivity | split; [exact P |]]].
  exact (proj2 (proj2 (proj2 (proj2
           (request_follows_watermark Z.le Z.le_refl Z.le_trans inserted
              inserted_latest_monotone))))
           client _ 30 client_is_reachable eq_refl P).
Defined.

(** One worker on its last statement: it is the only one. *)
Lemma at_most_one_worker_witness :
  let s := {| Threads.flag := true; Threads.lock := None;
              Threads.loop := Threads.LSleep;
              Threads.workers := [Threads.WClear] |} in
  Threads.reachable s /\ (Threads.active_workers s <= 1)%nat.
Proof.
  split; [exact reachable_before_clear |].
  exact (proj1 (at_most_one_worker _ reachable_before_clear)).
Defined.

(** The worker clears the flag and does not hold the lock. *)
Lemma flag_writes_and_lock_witness :
  let s := {| Threads.flag := true; Threads.lock := None;
              Threads.loop := Threads.LSleep;
              Threads.workers := [Threads.WClear] |} in
  let s' := {| Threads.flag := false; Threads.lock := None;
               Threads.loop := Threads.LSleep;
               Threads.workers := [Threads.WDone] |} in
  Threads.reachable s /\
  Threads.step s (Threads.Worker 0) (Threads.WriteFlag false) s' /\
  (exists i, Threads.Worker 0 = Threads.Worker i) /\
  Threads.lock s <> Some (Threads.Worker 0).
Proof.
  assert (S : Threads.step
                {| Threads.flag := true; Threads.lock := None;
                   Threads.loop := Threads.LSleep;
                   Threads.workers := [Threads.WClear] |}
                (Threads.Worker 0) (Threads.WriteFlag false)
                {| Threads.flag := false; Threads.lock := None;
                   Threads.loop := Threads.LSleep;
                   Threads.workers := [Threads.WDone] |}).
  { exact (Threads.step_worker
             {| Threads.flag := true; Threads.lock := None;
                Threads.loop := Threads.LSleep;
                Threads.workers := [Threads.WClear] |}
             0 Threads.WClear (Threads.WriteFlag false) Threads.WDone
             eq_refl (or_introl eq_refl)). }
  split; [exact reachable_before_clear | split; [exact S |]].
  exact (proj2 (flag_writes_and_lock _ _ _ _ reachable_before_clear S)
           eq_refl).
Defined.

End Witnesses.

(** * Further properties of the code *)

Section ApplyPathEdges.

Context {Store Event : Type} {repo : Repository Store Event} {codec : Codec Event}.

(** X1.  A response that is [None] or an empty iterable is no work at
    all: [handle_replay_events] returns, the store is not asked for its
    latest event, and the broker is exactly as it was. *)
Theorem empty_response_is_noop (events : value)
    (b : ReplayBroker Store Event) :
  events = VNone \/ iter events = Ok [] ->
  handle_replay_events events b = (Ok tt, b).
Proof.
  intros [-> | E]; [reflexivity |].
  rewrite handle_replay_events_loop. rewrite E.
  destruct events; try reflexivity.
Qed.

Lemma scalar_response_raises (b : ReplayBroker Store Event) :
  (forall n, handle_replay_events (VInt n) b = (Raise TypeError, b)) /\
  (forall x, handle_replay_events (VBool x) b = (Raise TypeError, b)).
Proof. split; intros; reflexivity. Qed.

Lemma apply_one_raises (bad : value) (e : exn)
    (b : ReplayBroker Store Event) :
  deserialize_msg bad = Raise e \/
  (exists d, deserialize_msg bad = Ok d /\ getitem d "name" = Raise e) ->
  apply_one bad b
  = (Raise e,
     {| repository := repository b;
        last_event_date := last_event_date b;
        remote_replay_socket := remote_replay_socket b;
        remote_replay_address := remote_replay_address b;
        request_in_progress := request_in_progress b;
        first_event_date := first_event_date b;
        effects := effects b ++ [Deserialize bad] |}).
Proof.
  unfold apply_one, process_replay_msg, refresh_last_event_date, emit, lift,
    bind.
  intros [D | (d & D & N)]; simpl; rewrite D; simpl;
    [| rewrite N]; reflexivity.
Qed.

Lemma for_each_stops (pre post : list value) (bad : value) (e : exn)
    (b : ReplayBroker Store Event) :
  Forall (fun msg => exists d n,
            deserialize_msg msg = Ok d /\ getitem d "name" = Ok n) pre ->
  deserialize_msg bad = Raise e \/
  (exists d, deserialize_msg bad = Ok d /\ getitem d "name" = Raise e) ->
  for_each (pre ++ bad :: post) apply_one b
  = (Raise e,
     {| repository := repository b;
        last_event_date := match pre with
                           | [] => last_event_date b
                           | _ => find_latest_energy_usage (repository b)
                           end;
        remote_replay_socket := remote_replay_socket b;
        remote_replay_address := remote_replay_address b;
        request_in_progress := request_in_progress b;
        first_event_date := first_event_date b;
        effects := effects b ++ flat_map apply_effects pre
                   ++ [Deserialize bad] |}).
Proof.
  intros H Bad. revert b.
  induction H as [| msg pre (d & n & D & N) _ IH]; intros b; simpl.
  - unfold bind. rewrite (apply_one_raises bad e b Bad). reflexivity.
  - unfold bind. rewrite (apply_one_ok msg d n b D N). rewrite IH. simpl.
    repeat rewrite <- app_assoc. destruct pre; reflexivity.
Qed.

(** X2.  The batch stops at the first message that fails to deserialize
    or deserializes to something without a name.  The messages before it
    have been applied in order (and the watermark re-read if there were
    any), the exception of the failing message leaves
    [handle_replay_events], and the messages after it are never looked
    at. *)
Theorem batch_stops_at_first_failure (pre post : list value) (bad : value)
    (e : exn) (b : ReplayBroker Store Event) :
  Forall (fun msg => exists d n,
            deserialize_msg msg = Ok d /\ getitem d "name" = Ok n) pre ->
  deserialize_msg bad = Raise e \/
  (exists d, deserialize_msg bad = Ok d /\ getitem d "name" = Raise e) ->
  handle_replay_events (VList (pre ++ bad :: post)) b
  = (Raise e,
     {| repository := repository b;
        last_event_date := match pre with
                           | [] => last_event_date b
                           | _ => find_latest_energy_usage (repository b)
                           end;
        remote_replay_socket := remote_replay_socket b;
        remote_replay_address := remote_replay_address b;
        request_in_progress := request_in_progress b;
        first_event_date := first_event_date b;
        effects := effects b ++ flat_map apply_effects pre
                   ++ [Deserialize bad] |}).
Proof.
  intros H Bad. rewrite handle_replay_events_loop. simpl.
  apply for_each_stops; assumption.
Qed.

End ApplyPathEdges.

Section WorkerEdges.

Context {Store Event : Type} {repo : Repository Store Event} {codec : Codec Event}.

Ltac monad_unfold :=
  unfold update_socket, set_last_event_date, set_remote_replay_socket,
    set_request_in_progress, emit, may_raise, lift, get, bind, ret, raise in *.

(** X3.  The exchange goes through and the upstream answers with a list
    of messages that all deserialize: the worker logs the request type,
    sends the request, receives, applies the messages in order, closes
    the socket and clears the flag, and returns without an exception;
    there is no warning and no backoff.  The socket it leaves behind was
    given both timeouts in milliseconds and the upstream address. *)
Theorem worker_applies_response (u : upstream) (d : list (string * value))
    (timeout : Z) (address : string) (msgs : list value)
    (b : ReplayBroker Store Event) :
  remote_replay_address b = Some address ->
  answers u (VList msgs) ->
  Forall (fun msg => exists m n,
            deserialize_msg msg = Ok m /\ getitem m "name" = Ok n) msgs ->
  _send_replay_request u (VDict d) timeout b
  = (Ok tt,
     {| repository := repository b;
        last_event_date := match msgs with
                           | [] => last_event_date b
                           | _ => find_latest_energy_usage (repository b)
                           end;
        remote_replay_socket :=
          Some {| connect_timeout := Some (timeout * 1000);
                  rcvtimeo := Some (timeout * 1000);
                  peer := Some address;
                  closed := true |};
        remote_replay_address := Some address;
        request_in_progress := false;
        first_event_date := first_event_date b;
        effects :=
          effects b ++
          [LogInfo "Sending replay request "
             (match lookup "type" d with Some x => x | None => VNone end);
           SockSend (VDict d); SockRecv] ++
          flat_map apply_effects msgs ++ [SockClose] |}).
Proof.
  intros A ((S & C & R & X) & Sn & Rc) H.
  unfold _send_replay_request, try_finally, try_except, try_block,
    except_block, finally_block.
  monad_unfold. simpl. rewrite S, C, R. simpl. rewrite A. simpl.
  rewrite X. simpl. rewrite Sn. simpl. rewrite Rc.
  cbn -[handle_replay_events]. rewrite handle_replay_events_loop.
  cbn [iter]. rewrite (for_each_apply_ok msgs _ H). simpl.
  repeat rewrite <- app_assoc. reflexivity.
Qed.

(** X4.  How a worker ends is how the body of its [try] ended, with
    [zmq.error.Again] taken out: as long as the attribute
    [remote_replay_socket] holds a socket when [finally] runs, an
    [Again] raised anywhere in the body (also by the apply path) is
    answered by the warning and the backoff and the worker returns; any
    other exception leaves the worker, without warning or backoff; and
    in every case the socket is closed last and the flag cleared. *)
Theorem worker_outcome (u : upstream) (request : value) (timeout : Z)
    (b : ReplayBroker Store Event) :
  remote_replay_socket b <> None \/ socket_raises u = None ->
  let t := try_block u request timeout b in
  let r := _send_replay_request u request timeout b in
  fst r = match fst t with
          | Ok _ => Ok tt
          | Raise e => if is_Again e then Ok tt else Raise e
          end /\
  request_in_progress (snd r) = false /\
  effects (snd r)
  = (effects (snd t) ++
     match fst t with
     | Ok _ => []
     | Raise e =>
         if is_Again e then
           [LogWarning
              "Resource temporarily unavailable. Retrying in 5 sec later...";
            Sleep 5]
         else []
     end ++ [SockClose])%list.
Proof.
  intros H. unfold _send_replay_request, try_finally, try_except.
  pose proof (try_block_frame u request timeout b) as T. simpl in T.
  destruct (try_block u request timeout b) as [r b1]. simpl in T.
  destruct T as (_ & _ & _ & _ & _ & S1 & S2).
  assert (S : remote_replay_socket b1 <> None) by (destruct H; auto).
  destruct (remote_replay_socket b1) as [s |] eqn:E; [| contradiction].
  cbn [fst snd].
  destruct r as [[] | e]; [| destruct (is_Again e)];
    try (unfold except_block; monad_unfold; simpl);
    rewrite finally_block_spec; simpl; rewrite E; simpl;
    repeat rewrite <- app_assoc; repeat split; reflexivity.
Qed.

(** X5.  The upstream answers with a batch in which a message fails to
    deserialize or has no name, with an exception other than [Again]:
    the messages before it are applied, the exception leaves the worker,
    and still the socket is closed and the flag cleared; the messages
    after the failing one are lost to this dispatch. *)
Theorem worker_propagates_apply_failure (u : upstream)
    (d : list (string * value)) (timeout : Z) (address : string)
    (pre post : list value) (bad : value) (e : exn)
    (b : ReplayBroker Store Event) :
  remote_replay_address b = Some address ->
  answers u (VList (pre ++ bad :: post)) ->
  Forall (fun msg => exists m n,
            deserialize_msg msg = Ok m /\ getitem m "name" = Ok n) pre ->
  deserialize_msg bad = Raise e \/
  (exists m, deserialize_msg bad = Ok m /\ getitem m "name" = Raise e) ->
  is_Again e = false ->
  _send_replay_request u (VDict d) timeout b
  = (Raise e,
     {| repository := repository b;
        last_event_date := match pre with
                           | [] => last_event_date b
                           | _ => find_latest_energy_usage (repository b)
                           end;
        remote_replay_socket :=
          Some {| connect_timeout := Some (timeout * 1000);
                  rcvtimeo := Some (timeout * 1000);
                  peer := Some address;
                  closed := true |};
        remote_replay_address := Some address;
        request_in_progress := false;
        first_event_date := first_event_date b;
        effects :=
          effects b ++
          [LogInfo "Sending replay request "
             (match lookup "type" d with Some x => x | None => VNone end);
           SockSend (VDict d); SockRecv] ++
          flat_map apply_effects pre ++ [Deserialize bad; SockClose] |}).
Proof.
  intros A ((S & C & R & X) & Sn & Rc) H Bad NA.
  unfold _send_replay_request, try_finally, try_except, try_block,
    except_block, finally_block.
  monad_unfold. simpl. rewrite S, C, R. simpl. rewrite A. simpl.
  rewrite X. simpl. rewrite Sn. simpl. rewrite Rc.
  cbn -[handle_replay_events]. rewrite handle_replay_events_loop.
  cbn [iter]. rewrite (for_each_stops pre post bad e _ H Bad).
  rewrite NA. simpl.
  repeat rewrite <- app_assoc. reflexivity.
Qed.

(** X6.  Once socket creation, the two [setsockopt] calls and [connect]
    have gone through, the socket the worker leaves in
    [remote_replay_socket] is closed, carries the connect timeout and
    the receive timeout of [timeout * 1000] each and the configured
    upstream address as its peer, whatever the request was and however
    sending, receiving and applying went. *)
Theorem worker_socket_configuration (u : upstream) (request : value)
    (timeout : Z) (address : string) (b : ReplayBroker Store Event) :
  remote_replay_address b = Some address ->
  connects u ->
  remote_replay_socket (snd (_send_replay_request u request timeout b))
  = Some {| connect_timeout := Some (timeout * 1000);
            rcvtimeo := Some (timeout * 1000);
            peer := Some address;
            closed := true |}.
Proof.
  intros A (S & C & R & X).
  unfold _send_replay_request, try_finally, try_except, try_block,
    except_block.
  monad_unfold. simpl. rewrite S, C, R. simpl. rewrite A. simpl.
  rewrite X. simpl.
  destruct (py_get request "type") as [ty | e0]; simpl;
    [| destruct (is_Again e0); simpl; try rewrite finally_block_spec; reflexivity].
  destruct (send_raises u) as [e0 |]; simpl;
    [destruct (is_Again e0); simpl; try rewrite finally_block_spec;
     reflexivity |].
  destruct (recv_result u) as [response | e0];
    [| simpl; destruct (is_Again e0); simpl; try rewrite finally_block_spec;
       reflexivity].
  cbn -[handle_replay_events].
  match goal with
  | |- context [handle_replay_events response ?B] =>
      destruct (handle_replay_events_frame response B) as [(_ & Sk & _) _];
      destruct (handle_replay_events response B) as [[[] | e0] b']
  end; simpl in Sk |- *;
    [| destruct (is_Again e0); simpl];
    rewrite finally_block_spec; simpl; rewrite Sk; reflexivity.
Qed.

(** X7.  A worker started on a broker that was never told its upstream
    ([connect_to_remote_replay_server] not called): the socket is
    created and given its timeouts, reading the address raises
    [AttributeError], nothing is sent, and the worker ends with that
    exception after closing the socket and clearing the flag. *)
Theorem worker_without_address (u : upstream) (request : value)
    (timeout : Z) (b : ReplayBroker Store Event) :
  remote_replay_address b = None ->
  socket_raises u = None ->
  connect_timeout_raises u = None ->
  rcvtimeo_raises u = None ->
  _send_replay_request u request timeout b
  = (Raise AttributeError,
     {| repository := repository b;
        last_event_date := last_event_date b;
        remote_replay_socket :=
          Some {| connect_timeout := Some (timeout * 1000);
                  rcvtimeo := Some (timeout * 1000);
                  peer := None;
                  closed := true |};
        remote_replay_address := None;
        request_in_progress := false;
        first_event_date := first_event_date b;
        effects := effects b ++ [SockClose] |}).
Proof.
  intros A S C R.
  unfold _send_replay_request, try_finally, try_except, try_block,
    except_block, finally_block.
  monad_unfold. simpl. rewrite S, C, R. simpl. rewrite A. reflexivity.
Qed.

(** X8.  Every dispatch works on a socket of its own: when socket
    creation goes through, what the attribute [remote_replay_socket]
    held before (nothing, or the closed socket of an earlier dispatch)
    makes no difference to what the worker does or leaves behind. *)
Theorem worker_takes_fresh_socket (u : upstream) (request : value)
    (timeout : Z) (old : option zsocket) (b : ReplayBroker Store Event) :
  socket_raises u = None ->
  _send_replay_request u request timeout
    (snd (set_remote_replay_socket old b))
  = _send_replay_request u request timeout b.
Proof.
  intros S.
  unfold _send_replay_request, try_finally, try_except, try_block.
  unfold bind at 1 3. unfold may_raise at 1 3. rewrite S.
  unfold bind at 1 3. unfold ret at 1 2.
  unfold bind at 1 3. unfold set_remote_replay_socket at 1 2 3.
  cbn [snd repository last_event_date remote_replay_address
       request_in_progress first_event_date effects].
  reflexivity.
Qed.

End WorkerEdges.

Section LoopEdges.

Context {Store Event : Type} {repo : Repository Store Event} {codec : Codec Event}.



End LoopEdges.

Section ServerEdges.

Context {Store Event : Type} {repo : Repository Store Event} {codec : Codec Event}.

(** X10.  A request that is falsy (an empty dict, [None], an empty list
    or string, zero, false) gets no reply: the turn logs it, sleeps a
    second and returns with nothing sent and nothing queried. *)
Theorem server_skips_empty_request (events : option (list Event))
    (request : value) (b : ReplayBroker Store Event) :
  truthy request = false ->
  replay_server_turn events request b
  = (Ok events,
     {| repository := repository b;
        last_event_date := last_event_date b;
        remote_replay_socket := remote_replay_socket b;
        remote_replay_address := remote_replay_address b;
        request_in_progress := request_in_progress b;
        first_event_date := first_event_date b;
        effects := effects b ++
                   [LogInfo "Got replay request " request; Sleep 1] |}).
Proof.
  intros T. unfold replay_server_turn, emit, lift, get, bind, ret, raise.
  rewrite T. simpl. rewrite <- app_assoc. reflexivity.
Qed.

(** X11.  A non-empty request dict whose type is neither
    [replay_by_timestamp] nor [replay_all] (or is missing) is not
    rejected.  In the first turn of the server the local [events] is
    unbound and the turn raises [UnboundLocalError] without a reply; in
    a later turn the events found for the previous request are
    serialized and sent again as the reply to this one. *)
Theorem server_unknown_type (d : list (string * value))
    (b : ReplayBroker Store Event) :
  truthy (VDict d) = true ->
  let ty := match lookup "type" d with Some x => x | None => VNone end in
  eq_str ty "replay_by_timestamp" = false ->
  eq_str ty "replay_all" = false ->
  replay_server_turn None (VDict d) b
  = (Raise UnboundLocalError,
     {| repository := repository b;
        last_event_date := last_event_date b;
        remote_replay_socket := remote_replay_socket b;
        remote_replay_address := remote_replay_address b;
        request_in_progress := request_in_progress b;
        first_event_date := first_event_date b;
        effects := effects b ++ [LogInfo "Got replay request " (VDict d)] |})
  /\
  forall stale : list Event,
    replay_server_turn (Some stale) (VDict d) b
    = (Ok (Some stale),
       {| repository := repository b;
          last_event_date := last_event_date b;
          remote_replay_socket := remote_replay_socket b;
          remote_replay_address := remote_replay_address b;
          request_in_progress := request_in_progress b;
          first_event_date := first_event_date b;
          effects := effects b ++
                     [LogInfo "Got replay request " (VDict d);
                      Reply (VList (map serialize_msg stale));
                      Sleep 1] |}).
Proof.
  intros T ty T1 T2. subst ty.
  unfold replay_server_turn, emit, lift, get, bind, ret, raise, py_get.
  rewrite T. cbn [fst snd]. rewrite T1, T2. split.
  - reflexivity.
  - intros stale. simpl. repeat rewrite <- app_assoc. reflexivity.
Qed.

(** X12.  A non-empty request that is not a dict (a list, a string, a
    number, [True]) has no [get]: the turn raises [AttributeError] right
    after logging the request, and no reply is sent. *)
Theorem server_non_dict_request (events : option (list Event))
    (request : value) (b : ReplayBroker Store Event) :
  truthy request = true ->
  (forall d, request <> VDict d) ->
  replay_server_turn events request b
  = (Raise AttributeError,
     {| repository := repository b;
        last_event_date := last_event_date b;
        remote_replay_socket := remote_replay_socket b;
        remote_replay_address := remote_replay_address b;
        request_in_progress := request_in_progress b;
        first_event_date := first_event_date b;
        effects := effects b ++ [LogInfo "Got replay request " request] |}).
Proof.
  intros T ND. unfold replay_server_turn, emit, lift, get, bind, ret, raise.
  rewrite T.
  destruct request as [| x | n | s | l | d]; try reflexivity.
  exfalso. apply (ND d). reflexivity.
Qed.

(** X13.  A [replay_by_timestamp] request whose [last_event_date] does
    not make it through: the field is missing (then [None] is what gets
    deserialized), it fails to deserialize, or what it deserializes to
    has no [arrival_time].  The exception leaves the turn, the store has
    not been queried and no reply has been sent. *)
Theorem server_malformed_timestamp_request (events : option (list Event))
    (d : list (string * value)) (e : exn) (b : ReplayBroker Store Event) :
  lookup "type" d = Some (VStr "replay_by_timestamp") ->
  let raw := match lookup "last_event_date" d with
             | Some x => x
             | None => VNone
             end in
  deserialize_msg raw = Raise e \/
  (exists w, deserialize_msg raw = Ok w /\
             getitem w "arrival_time" = Raise e) ->
  replay_server_turn events (VDict d) b
  = (Raise e,
     {| repository := repository b;
        last_event_date := last_event_date b;
        remote_replay_socket := remote_replay_socket b;
        remote_replay_address := remote_replay_address b;
        request_in_progress := request_in_progress b;
        first_event_date := first_event_date b;
        effects := effects b ++
                   [LogInfo "Got replay request " (VDict d);
                    Deserialize raw] |}).
Proof.
  intros T raw Bad. subst raw.
  pose proof (typed_request_truthy d _ T) as Tr.
  unfold replay_server_turn, emit, lift, get, bind, ret, raise.
  rewrite Tr. unfold py_get. rewrite T.
  cbn [eq_str String.eqb Ascii.eqb Bool.eqb fst snd].
  destruct Bad as [D | (w & D & A)]; rewrite D; [| rewrite A];
    cbn [fst snd effects repository last_event_date remote_replay_socket
         remote_replay_address request_in_progress first_event_date];
    repeat rewrite <- app_assoc; reflexivity.
Qed.

Ltac server_unfold :=
  unfold replay_server_turn, emit, lift, get, bind, ret, raise.

Ltac server_cases request events :=
  destruct (truthy request);
  [ destruct (py_get request "type") as [ty | e0];
    [ cbn [fst snd];
      destruct (eq_str ty "replay_by_timestamp");
      [ destruct (py_get request "last_event_date") as [raw | e0];
        [ cbn [fst snd];
          destruct (deserialize_msg raw) as [w | e0];
          [ cbn [fst snd];
            destruct (getitem w "arrival_time") as [at_ | e0] | ]
        | ]
      | destruct (eq_str ty "replay_all"); [ | destruct events ] ]
    | ]
  | ].

(** X14.  The replay server is a pure responder: whatever the request
    and however the turn ends, no attribute of the broker has changed
    (the store, the watermark, the client socket and address, the flag);
    all a turn leaves behind is its log, its reply and its sleep. *)
Theorem server_turn_changes_nothing (events : option (list Event))
    (request : value) (b : ReplayBroker Store Event) :
  let b' := snd (replay_server_turn events request b) in
  repository b' = repository b /\
  last_event_date b' = last_event_date b /\
  remote_replay_socket b' = remote_replay_socket b /\
  remote_replay_address b' = remote_replay_address b /\
  request_in_progress b' = request_in_progress b /\
  first_event_date b' = first_event_date b.
Proof.
  server_unfold. server_cases request events;
    cbn [fst snd]; repeat split; reflexivity.
Qed.

Ltac pick_member := repeat (first [left; reflexivity | right]).

Ltac reply_sent_then_ok :=
  let payload := fresh "payload" in
  let H := fresh "H" in
  intros [payload H]; simpl in H;
  repeat (destruct H as [H | H]; try discriminate H);
  try contradiction;
  (split; [reflexivity | eexists; reflexivity]).

Ltac ok_then_reply_sent :=
  let H1 := fresh "H" in
  let H2 := fresh "H" in
  let found := fresh "found" in
  intros [H1 [found H2]];
  first [discriminate H1 | discriminate H2
        | eexists; simpl; pick_member].

Ltac reply_is_serialization :=
  let H1 := fresh "H" in
  let H2 := fresh "H" in
  let found := fresh "found" in
  intros found H1 H2;
  first [discriminate H1 | discriminate H2
        | inversion H2; subst; simpl; pick_member].

(** X15.  A turn sends a reply exactly when it returns normally on a
    truthy request, and the reply is then the serialization of the
    events the turn ends with.  A turn that raises has sent nothing, so
    the requester is left without an answer. *)
Theorem server_replies_iff_turn_succeeds (events : option (list Event))
    (request : value) (b : ReplayBroker Store Event) :
  let r := replay_server_turn events request b in
  exists new : list effect,
    effects (snd r) = (effects b ++ new)%list /\
    ((exists payload, In (Reply payload) new) <->
     (truthy request = true /\ exists found, fst r = Ok (Some found))) /\
    (forall found,
       truthy request = true -> fst r = Ok (Some found) ->
       In (Reply (VList (map serialize_msg found))) new).
Proof.
  server_unfold. destruct (truthy request) eqn:T;
    [ destruct (py_get request "type") as [ty | e0];
      [ cbn [fst snd];
        destruct (eq_str ty "replay_by_timestamp");
        [ destruct (py_get request "last_event_date") as [raw | e0];
          [ cbn [fst snd];
            destruct (deserialize_msg raw) as [w | e0];
            [ cbn [fst snd];
              destruct (getitem w "arrival_time") as [at_ | e0] | ]
          | ]
        | destruct (eq_str ty "replay_all"); [ | destruct events ] ]
      | ]
    | ];
    cbn [fst snd effects]; repeat rewrite <- (app_assoc (effects b));
    eexists; (split; [reflexivity |]);
    (split; [split; [reply_sent_then_ok | ok_then_reply_sent]
            | reply_is_serialization]).
Qed.

(** X16.  The two ends fit: the request a client builds from its
    watermark is always one the server knows.  Without a watermark the
    server replies with all its events; with a watermark that the codec
    takes back to something with an [arrival_time], it replies with the
    events the store finds after that arrival time.  The turn never
    ends in [UnboundLocalError] or [AttributeError] on such a request. *)
Theorem server_answers_client_request (events : option (list Event))
    (client server : ReplayBroker Store Event) :
  (last_event_date client = None ->
   let found := get_all_events (repository server) in
   let r := replay_server_turn events (replay_request client) server in
   fst r = Ok (Some found) /\
   effects (snd r)
   = (effects server ++
      [LogInfo "Got replay request " (replay_request client);
       GetAllEvents;
       Reply (VList (map serialize_msg found));
       Sleep 1])%list) /\
  (forall w m arrival_time,
     last_event_date client = Some w ->
     deserialize_msg (serialize_msg w) = Ok m ->
     getitem m "arrival_time" = Ok arrival_time ->
     let found :=
       find_energy_after_arrival_time (repository server) arrival_time in
     let r := replay_server_turn events (replay_request client) server in
     fst r = Ok (Some found) /\
     effects (snd r)
     = (effects server ++
        [LogInfo "Got replay request " (replay_request client);
         Deserialize (serialize_msg w);
         FindAfter arrival_time;
         Reply (VList (map serialize_msg found));
         Sleep 1])%list).
Proof.
  split.
  - intros N found r. subst r found. unfold replay_request. rewrite N.
    server_unfold. simpl. repeat rewrite <- app_assoc. split; reflexivity.
  - intros w m arrival_time W D A found r. subst r found.
    unfold replay_request. rewrite W.
    server_unfold. cbn [truthy py_get lookup String.eqb Ascii.eqb Bool.eqb
                        eq_str fst snd].
    rewrite D. cbn [fst snd]. rewrite A.
    cbn [fst snd effects repository]. repeat rewrite <- app_assoc.
    split; reflexivity.
Qed.

End ServerEdges.

Section ClientAndStore.

Context {Store Event : Type} {repo : Repository Store Event} {codec : Codec Event}.

(** X17.  The client never writes to the store: whatever move it makes
    (a tick, a worker with any outcome and any response, one message
    applied, being told its upstream), the store afterwards is the store
    before; every change of the store is the doing of another writer. *)
Theorem client_never_writes_store (store_evolves : Store -> Store -> Prop)
    (b b' : ReplayBroker Store Event) :
  client_step store_evolves b b' ->
  repository b' = repository b \/
  store_evolves (repository b) (repository b').
Proof.
  intros H. destruct H as
    [b s E | b address | b interval timeout | b u request timeout
     | b event].
  - right. exact E.
  - left. reflexivity.
  - left. apply tick_frame.
  - left. apply (worker_frame u request timeout b).
  - left. apply (apply_one_frame event b).
Qed.

Lemma alone_step_keeps (store : Store) (b b' : ReplayBroker Store Event) :
  client_step (fun _ _ => False) b b' ->
  repository b = store /\
  last_event_date b = find_latest_energy_usage store ->
  repository b' = store /\
  last_event_date b' = find_latest_energy_usage store.
Proof.
  intros H [R W]. destruct H as
    [b s [] | b address | b interval timeout | b u request timeout
     | b event].
  - split; assumption.
  - destruct (tick_frame interval timeout b) as [R1 W1].
    rewrite R1, W1. split; assumption.
  - pose proof (worker_frame u request timeout b) as F. simpl in F.
    destruct F as (R1 & _ & _ & [W1 | W1]); rewrite R1, W1;
      split; congruence.
  - destruct (apply_one_frame event b) as [(R1 & _) [W1 | W1]];
      rewrite R1, W1; split; congruence.
Qed.

(** X18.  As the insert is disabled, replaying brings nothing in: a
    client that is the only one at its store keeps, through any run of
    ticks and workers and whatever the upstream answers, the store it
    started with and the watermark it read from it at start-up. *)
Theorem watermark_fixed_without_writers (store : Store)
    (b : ReplayBroker Store Event) :
  clos_refl_trans_1n _ (client_step (fun _ _ => False))
    (init_replay_state store) b ->
  repository b = store /\
  last_event_date b = find_latest_energy_usage store.
Proof.
  intros H.
  assert (G : forall x y : ReplayBroker Store Event,
             clos_refl_trans_1n _ (client_step (fun _ _ => False)) x y ->
             repository x = store /\
             last_event_date x = find_latest_energy_usage store ->
             repository y = store /\
             last_event_date y = find_latest_energy_usage store).
  { induction 1 as [x | x y z S _ IH]; intros P; [exact P |].
    apply IH. apply (alone_step_keeps store x y S P). }
  apply (G _ _ H). split; reflexivity.
Qed.

End ClientAndStore.

Section MoreInterleavings.

Import Threads.


(** X20.  As long as a worker has a statement left to run, the flag
    [request_in_progress] is true. *)
Theorem flag_up_while_worker_active (s : sys) :
  reachable s -> (1 <= active_workers s)%nat -> flag s = true.
Proof.
  intros R. destruct (reachable_inv s R) as (_ & F & _). exact F.
Qed.

Lemma no_active_worker (ws : list worker_pc) (i : nat) (w : worker_pc) :
  List.length (filter active ws) = 0%nat ->
  nth_error ws i = Some w -> active w = false.
Proof.
  revert i. induction ws as [| x ws IH]; intros i Z E.
  - destruct i; discriminate.
  - simpl in Z. destruct (active x) eqn:A; [discriminate |].
    destruct i as [| i]; simpl in E.
    + inversion E; subst. exact A.
    + apply (IH i Z E).
Qed.

Lemma wedged_step (s s' : sys) (t : thread) (a : action) :
  flag s = true -> active_workers s = 0%nat ->
  loop s = LCheck \/ loop s = LSleep ->
  step s t a s' ->
  workers s' = workers s /\ flag s' = true /\
  (loop s' = LCheck \/ loop s' = LSleep).
Proof.
  intros F Z PC H. destruct H as [s a s' H | s i w a w' E H].
  - unfold loop_next in H. destruct PC as [PC | PC]; rewrite PC in H;
      destruct H as [H | []]; inversion H; subst; simpl.
    + rewrite F. repeat split; auto.
    + repeat split; auto.
  - destruct (worker_next_cases w w' a H) as [A _].
    rewrite (no_active_worker (workers s) i w Z E) in A. discriminate.
Qed.

(** X21.  A flag left set with no worker to clear it is never cleared:
    from a state in which the flag is true, no worker is active and the
    loop is at its check or asleep, every state the threads get into
    has the same workers, the flag still true and the loop still going
    round between check and sleep.  No worker is ever started again. *)
Theorem flag_without_worker_wedges_loop (s s' : sys) :
  flag s = true -> active_workers s = 0%nat ->
  loop s = LCheck \/ loop s = LSleep ->
  clos_refl_trans_1n sys (fun x y => exists t a, step x t a y) s s' ->
  workers s' = workers s /\ flag s' = true /\
  (loop s' = LCheck \/ loop s' = LSleep).
Proof.
  intros F Z PC H. induction H as [x | x y z (t & a & S) _ IH].
  - auto.
  - destruct (wedged_step x y t a F Z PC S) as (W & F1 & PC1).
    assert (Z1 : active_workers y = 0%nat)
      by (unfold active_workers in *; rewrite W; exact Z).
    destruct (IH F1 Z1 PC1) as (W2 & F2 & PC2).
    repeat split; try assumption. congruence.
Qed.

End MoreInterleavings.

Section MoreConstructing.

Import Construction.

(** X22.  [Broker()] returns exactly when both binds go through, and
    then the REP socket is bound to port 5560 and the XPUB socket to
    port 5559; when the first bind raises, its exception leaves
    [__init__] and the XPUB socket has not been created. *)
Theorem Broker_binds_both_or_raises (bind_raises : value -> option exn) :
  (fst (new_Broker bind_raises) = Ok tt <->
   bind_raises (VStr "tcp://127.0.0.1:5560") = None /\
   bind_raises (VStr "tcp://127.0.0.1:5559") = None) /\
  (fst (new_Broker bind_raises) = Ok tt ->
   lookup "edge_sub_socket" (snd (new_Broker bind_raises))
   = Some (ASocket "REP" (Some (VStr "tcp://127.0.0.1:5560"))) /\
   lookup "server_pub_socket" (snd (new_Broker bind_raises))
   = Some (ASocket "XPUB" (Some (VStr "tcp://127.0.0.1:5559")))) /\
  (forall e,
     bind_raises (VStr "tcp://127.0.0.1:5560") = Some e ->
     fst (new_Broker bind_raises) = Raise e /\
     lookup "server_pub_socket" (snd (new_Broker bind_raises)) = None).
Proof.
  unfold new_Broker, Broker___init__, setattr, may_raise, bind, lift, ret,
    raise.
  simpl.
  destruct (bind_raises (VStr "tcp://127.0.0.1:5560")) as [e1 |]; simpl;
    [| destruct (bind_raises (VStr "tcp://127.0.0.1:5559")) as [e2 |]; simpl];
    repeat split; intros;
    try discriminate; try reflexivity;
    try match goal with
        | H : _ /\ _ |- _ => destruct H; discriminate
        | H : Some _ = Some _ |- _ => inversion H; reflexivity
        end.
Qed.

End MoreConstructing.

Section MoreWitnesses.

Import Example.

Lemma empty_response_is_noop_witness :
  (VList [] = VNone \/ iter (VList []) = Ok []) /\
  handle_replay_events (VList []) client = (Ok tt, client).
Proof.
  split; [right; reflexivity |].
  exact (empty_response_is_noop (VList []) client (or_intror eq_refl)).
Defined.

(** The event at 40 is applied, the number 3 is no message, the event at
    50 is never seen. *)
Lemma batch_stops_at_first_failure_witness :
  Forall (fun msg => exists d n,
            deserialize_msg msg = Ok d /\ getitem d "name" = Ok n)
    [wire 40] /\
  deserialize_msg (VInt 3) = Raise CodecError /\
  fst (handle_replay_events (VList ([wire 40] ++ VInt 3 :: [wire 50])) client)
  = Raise CodecError.
Proof.
  assert (P : Forall (fun msg => exists d n,
                        deserialize_msg msg = Ok d /\ getitem d "name" = Ok n)
                [wire 40]).
  { repeat constructor. exists (wire 40), (VStr "energy_usage").
    split; reflexivity. }
  split; [exact P | split; [reflexivity |]].
  exact (f_equal fst
           (batch_stops_at_first_failure [wire 40] [wire 50] (VInt 3)
              CodecError client P (or_introl eq_refl))).
Defined.

Lemma worker_applies_response_witness :
  let u := {| socket_raises := None; connect_timeout_raises := None;
              rcvtimeo_raises := None; connect_raises := None;
              send_raises := None; recv_result := Ok (VList [wire 40]) |} in
  remote_replay_address client = Some "tcp://upstream:5561" /\
  answers u (VList [wire 40]) /\
  Forall (fun msg => exists m n,
            deserialize_msg msg = Ok m /\ getitem m "name" = Ok n)
    [wire 40] /\
  fst (_send_replay_request u (VDict [("type", VStr "replay_all")]) 60 client)
  = Ok tt.
Proof.
  assert (P : Forall (fun msg => exists d n,
                        deserialize_msg msg = Ok d /\ getitem d "name" = Ok n)
                [wire 40]).
  { repeat constructor. exists (wire 40), (VStr "energy_usage").
    split; reflexivity. }
  assert (A : answers
                {| socket_raises := None; connect_timeout_raises := None;
                   rcvtimeo_raises := None; connect_raises := None;
                   send_raises := None;
                   recv_result := Ok (VList [wire 40]) |}
                (VList [wire 40])).
  { unfold answers, connects. simpl. tauto. }
  split; [reflexivity | split; [exact A | split; [exact P |]]].
  exact (f_equal fst
           (worker_applies_response _ [("type", VStr "replay_all")] 60
              "tcp://upstream:5561" [wire 40] client eq_refl A P)).
Defined.

Lemma worker_outcome_witness :
  let request := VDict [("type", VStr "replay_all")] in
  (remote_replay_socket client <> None \/
   socket_raises upstream_timeout = None) /\
  fst (try_block upstream_timeout request 60 client) = Raise Again /\
  fst (_send_replay_request upstream_timeout request 60 client) = Ok tt.
Proof.
  split; [right; reflexivity | split; [reflexivity |]].
  exact (proj1 (worker_outcome upstream_timeout
                  (VDict [("type", VStr "replay_all")]) 60 client
                  (or_intror eq_refl))).
Defined.

Lemma worker_propagates_apply_failure_witness :
  let u := {| socket_raises := None; connect_timeout_raises := None;
              rcvtimeo_raises := None; connect_raises := None;
              send_raises := None;
              recv_result := Ok (VList ([wire 40] ++ VInt 3 :: [wire 50])) |}
  in
  remote_replay_address client = Some "tcp://upstream:5561" /\
  answers u (VList ([wire 40] ++ VInt 3 :: [wire 50])) /\
  deserialize_msg (VInt 3) = Raise CodecError /\
  is_Again CodecError = false /\
  fst (_send_replay_request u (VDict [("type", VStr "replay_all")]) 60 client)
  = Raise CodecError.
Proof.
  assert (P : Forall (fun msg => exists d n,
                        deserialize_msg msg = Ok d /\ getitem d "name" = Ok n)
                [wire 40]).
  { repeat constructor. exists (wire 40), (VStr "energy_usage").
    split; reflexivity. }
  assert (A : answers
                {| socket_raises := None; connect_timeout_raises := None;
                   rcvtimeo_raises := None; connect_raises := None;
                   send_raises := None;
                   recv_result :=
                     Ok (VList ([wire 40] ++ VInt 3 :: [wire 50])) |}
                (VList ([wire 40] ++ VInt 3 :: [wire 50]))).
  { unfold answers, connects. simpl. tauto. }
  split; [reflexivity | split; [exact A |]].
  split; [reflexivity | split; [reflexivity |]].
  exact (f_equal fst
           (worker_propagates_apply_failure _ [("type", VStr "replay_all")]
              60 "tcp://upstream:5561" [wire 40] [wire 50] (VInt 3)
              CodecError client eq_refl A P (or_introl eq_refl) eq_refl)).
Defined.

Lemma worker_socket_configuration_witness :
  remote_replay_address client = Some "tcp://upstream:5561" /\
  connects upstream_timeout /\
  remote_replay_socket
    (snd (_send_replay_request upstream_timeout (VInt 7) 60 client))
  = Some {| connect_timeout := Some 60000; rcvtimeo := Some 60000;
            peer := Some "tcp://upstream:5561"; closed := true |}.
Proof.
  assert (C : connects upstream_timeout)
    by (unfold connects; simpl; tauto).
  split; [reflexivity | split; [exact C |]].
  exact (worker_socket_configuration upstream_timeout (VInt 7) 60
           "tcp://upstream:5561" client eq_refl C).
Defined.

Lemma worker_without_address_witness :
  let b := init_replay_state [10; 20; 30] in
  remote_replay_address b = None /\
  fst (_send_replay_request upstream_timeout (replay_request b) 60 b)
  = Raise AttributeError.
Proof.
  split; [reflexivity |].
  exact (f_equal fst
           (worker_without_address upstream_timeout
              (replay_request (init_replay_state [10; 20; 30])) 60
              (init_replay_state [10; 20; 30])
              eq_refl eq_refl eq_refl eq_refl)).
Defined.

Lemma worker_takes_fresh_socket_witness :
  socket_raises upstream_timeout = None /\
  _send_replay_request upstream_timeout (replay_request client) 60
    (snd (set_remote_replay_socket (Some (close fresh_socket)) client))
  = _send_replay_request upstream_timeout (replay_request client) 60 client.
Proof.
  split; [reflexivity |].
  exact (worker_takes_fresh_socket upstream_timeout (replay_request client)
           60 (Some (close fresh_socket)) client eq_refl).
Defined.


Lemma server_skips_empty_request_witness :
  truthy (VDict []) = false /\
  fst (replay_server_turn (Some [10]) (VDict []) client) = Ok (Some [10]).
Proof.
  split; [reflexivity |].
  exact (f_equal fst
           (server_skips_empty_request (Some [10]) (VDict []) client
              eq_refl)).
Defined.

Lemma server_unknown_type_witness :
  let d := [("type", VStr "replay_some")] in
  truthy (VDict d) = true /\
  fst (replay_server_turn None (VDict d) client) = Raise UnboundLocalError /\
  fst (replay_server_turn (Some [10]) (VDict d) client) = Ok (Some [10]).
Proof.
  split; [reflexivity |].
  split.
  - exact (f_equal fst
             (proj1 (server_unknown_type [("type", VStr "replay_some")]
                       client eq_refl eq_refl eq_refl))).
  - exact (f_equal fst
             (proj2 (server_unknown_type [("type", VStr "replay_some")]
                       client eq_refl eq_refl eq_refl) [10])).
Defined.

Lemma server_non_dict_request_witness :
  truthy (VList [VInt 1]) = true /\
  (forall d, VList [VInt 1] <> VDict d) /\
  fst (replay_server_turn None (VList [VInt 1]) client)
  = Raise AttributeError.
Proof.
  assert (N : forall d, VList [VInt 1] <> VDict d) by (intros; discriminate).
  split; [reflexivity | split; [exact N |]].
  exact (f_equal fst
           (server_non_dict_request None (VList [VInt 1]) client eq_refl N)).
Defined.

(** The watermark field is missing: [None] goes to the codec. *)
Lemma server_malformed_timestamp_request_witness :
  let d := [("type", VStr "replay_by_timestamp")] in
  lookup "type" d = Some (VStr "replay_by_timestamp") /\
  deserialize_msg VNone = Raise CodecError /\
  fst (replay_server_turn None (VDict d) client) = Raise CodecError.
Proof.
  split; [reflexivity | split; [reflexivity |]].
  exact (f_equal fst
           (server_malformed_timestamp_request None
              [("type", VStr "replay_by_timestamp")] CodecError client
              eq_refl (or_introl eq_refl))).
Defined.

(** Scenario B from end to end: the client at 20 asks, the server with
    10, 20 and 30 finds 30. *)
Lemma server_answers_client_request_witness :
  let asking := init_replay_state [10; 20] in
  last_event_date asking = Some 20 /\
  deserialize_msg (serialize_msg 20) = Ok (wire 20) /\
  getitem (wire 20) "arrival_time" = Ok (VInt 20) /\
  fst (replay_server_turn None (replay_request asking) client)
  = Ok (Some [30]).
Proof.
  split; [reflexivity | split; [reflexivity | split; [reflexivity |]]].
  exact (proj1 (proj2 (server_answers_client_request None
                         (init_replay_state [10; 20]) client)
                  20 (wire 20) (VInt 20) eq_refl eq_refl eq_refl)).
Defined.

Lemma client_never_writes_store_witness :
  client_step inserted client (snd (replay_request_tick 2 60 client)) /\
  (repository (snd (replay_request_tick 2 60 client)) = repository client \/
   inserted (repository client)
     (repository (snd (replay_request_tick 2 60 client)))).
Proof.
  split; [apply tick_step |].
  exact (client_never_writes_store inserted client _
           (tick_step inserted client 2 60)).
Defined.

(** The upstream sends the event at 40; the client still stands at 30. *)
Lemma watermark_fixed_without_writers_witness :
  let u := {| socket_raises := None; connect_timeout_raises := None;
              rcvtimeo_raises := None; connect_raises := None;
              send_raises := None; recv_result := Ok (VList [wire 40]) |} in
  let b := snd (_send_replay_request u (replay_request client) 60 client) in
  clos_refl_trans_1n _ (client_step (fun _ _ => False))
    (init_replay_state [10; 20; 30]) b /\
  repository b = [10; 20; 30] /\
  last_event_date b = Some 30.
Proof.
  assert (P : clos_refl_trans_1n _ (client_step (fun _ _ => False))
                (init_replay_state [10; 20; 30])
                (snd (_send_replay_request
                        {| socket_raises := None;
                           connect_timeout_raises := None;
                           rcvtimeo_raises := None; connect_raises := None;
                           send_raises := None;
                           recv_result := Ok (VList [wire 40]) |}
                        (replay_request client) 60 client))).
  { eapply Relation_Operators.rt1n_trans;
      [apply (connect_step _ (init_replay_state [10; 20; 30])
                "tcp://upstream:5561") |].
    eapply Relation_Operators.rt1n_trans; [| apply rt1n_refl].
    apply (worker_step (fun _ _ => False) client). }
  split; [exact P |].
  exact (watermark_fixed_without_writers [10; 20; 30] _ P).
Defined.


Lemma flag_up_while_worker_active_witness :
  let s := {| Threads.flag := true; Threads.lock := None;
              Threads.loop := Threads.LSleep;
              Threads.workers := [Threads.WClear] |} in
  Threads.reachable s /\ (1 <= Threads.active_workers s)%nat /\
  Threads.flag s = true.
Proof.
  split; [exact reachable_before_clear | split; [apply le_n |]].
  exact (flag_up_while_worker_active _ reachable_before_clear (le_n 1)).
Defined.

(** The worker that crashed in [close()] has left the flag set; one step
    of the loop later nothing has moved. *)
Lemma flag_without_worker_wedges_loop_witness :
  let s := {| Threads.flag := true; Threads.lock := None;
              Threads.loop := Threads.LSleep;
              Threads.workers := [Threads.WCrashed] |} in
  let s' := {| Threads.flag := true; Threads.lock := None;
               Threads.loop := Threads.LCheck;
               Threads.workers := [Threads.WCrashed] |} in
  Threads.flag s = true /\ Threads.active_workers s = 0%nat /\
  clos_refl_trans_1n Threads.sys
    (fun x y => exists t a, Threads.step x t a y) s s' /\
  Threads.workers s' = Threads.workers s /\ Threads.flag s' = true.
Proof.
  assert (P : clos_refl_trans_1n Threads.sys
                (fun x y => exists t a, Threads.step x t a y)
                {| Threads.flag := true; Threads.lock := None;
                   Threads.loop := Threads.LSleep;
                   Threads.workers := [Threads.WCrashed] |}
                {| Threads.flag := true; Threads.lock := None;
                   Threads.loop := Threads.LCheck;
                   Threads.workers := [Threads.WCrashed] |}).
  { eapply Relation_Operators.rt1n_trans; [| apply rt1n_refl].
    exists Threads.Loop, Threads.Tau. apply Threads.step_loop.
    simpl. left. reflexivity. }
  split; [reflexivity | split; [reflexivity | split; [exact P |]]].
  pose proof (flag_without_worker_wedges_loop
                {| Threads.flag := true; Threads.lock := None;
                   Threads.loop := Threads.LSleep;
                   Threads.workers := [Threads.WCrashed] |}
                {| Threads.flag := true; Threads.lock := None;
                   Threads.loop := Threads.LCheck;
                   Threads.workers := [Threads.WCrashed] |}
                eq_refl eq_refl (or_intror eq_refl) P) as (W & F & _).
  split; [exact W | exact F].
Defined.

End MoreWitnesses.
